(** * osquery SQL string extensions: split, regex_split, regex_replace, inet_aton

    A shallow embedding of [osquery/sql/sqlite_string.cpp] and of the library
    routines it calls, followed by the properties of the four SQL functions
    it registers.

    Conventions.
    - A [std::string] is a [string] of bytes ([ascii]); [size_t] is 64 bits
      wide and [int] 32 bits wide, both carried by [Z] with the conversions
      written out.
    - A call of a registered function either comes back with the engine
      context it filled, or is left by a C++ exception, or never comes back:
      this is the type [outcome].
    - SQLite arguments of storage class REAL and BLOB are outside the model. *)

From Stdlib Require Import ZArith List Bool Arith Lia.
From Stdlib Require Import Strings.String Strings.Ascii Numbers.DecimalString.
Import ListNotations.

Open Scope string_scope.
Open Scope list_scope.
Open Scope Z_scope.

(* ------------------------------------------------------------------------- *)
(** ** Machine integers *)

Module Machine.

(** [(int)x]: the low 32 bits of [x], read as a signed number. *)
Definition static_cast_int (x : Z) : Z :=
  (x + 2 ^ 31) mod 2 ^ 32 - 2 ^ 31.

(** [static_cast<size_t>(x)]: [x] modulo 2^64. *)
Definition static_cast_size_t (x : Z) : Z :=
  x mod 2 ^ 64.

(** Saturation to the range of [sqlite3_int64]. *)
Definition clamp_int64 (x : Z) : Z :=
  Z.max (- 2 ^ 63) (Z.min (2 ^ 63 - 1) x).

Inductive byte_order : Set := LittleEndian | BigEndian.

(** A [uint32_t] object read from four bytes of memory. *)
Definition load_uint32 (host : byte_order) (mem : list Z) : Z :=
  let b (k : nat) := nth k mem 0 in
  match host with
  | LittleEndian =>
      Z.lor (b 0%nat)
        (Z.lor (Z.shiftl (b 1%nat) 8)
           (Z.lor (Z.shiftl (b 2%nat) 16) (Z.shiftl (b 3%nat) 24)))
  | BigEndian =>
      Z.lor (b 3%nat)
        (Z.lor (Z.shiftl (b 2%nat) 8)
           (Z.lor (Z.shiftl (b 1%nat) 16) (Z.shiftl (b 0%nat) 24)))
  end.

Definition bswap32 (x : Z) : Z :=
  Z.lor (Z.shiftl (Z.land x 255) 24)
    (Z.lor (Z.shiftl (Z.land (Z.shiftr x 8) 255) 16)
       (Z.lor (Z.shiftl (Z.land (Z.shiftr x 16) 255) 8)
          (Z.land (Z.shiftr x 24) 255))).

(** [ntohl]: network (big-endian) to host order. *)
Definition ntohl (host : byte_order) (netlong : Z) : Z :=
  match host with
  | LittleEndian => bswap32 netlong
  | BigEndian => netlong
  end.

End Machine.
Export Machine.

(* ------------------------------------------------------------------------- *)
(** ** Strings *)

Module Str.

Definition empty (s : string) : bool :=
  match s with
  | EmptyString => true
  | String _ _ => false
  end.

Definition size (s : string) : Z := Z.of_nat (String.length s).

(** Bytes from offset [b] (inclusive) to offset [e] (exclusive). *)
Definition range (b e : nat) (s : string) : string :=
  substring b (e - b) s.

(** Bytes from offset [b] to the end. *)
Definition from (b : nat) (s : string) : string :=
  substring b (String.length s - b) s.

(** [s.find(c) != std::string::npos]. *)
Fixpoint contains (c : ascii) (s : string) : bool :=
  match s with
  | EmptyString => false
  | String x s' => Ascii.eqb x c || contains c s'
  end.

(** [std::string(p)] for a NUL-terminated [p]: the bytes before the first
    NUL. *)
Fixpoint of_c_str (p : string) : string :=
  match p with
  | EmptyString => EmptyString
  | String c p' =>
      if Ascii.eqb c zero then EmptyString else String c (of_c_str p')
  end.

Definition is_digit (c : ascii) : bool :=
  (48 <=? nat_of_ascii c)%nat && (nat_of_ascii c <=? 57)%nat.

Definition digit_value (c : ascii) : Z :=
  Z.of_nat (nat_of_ascii c) - 48.

(** The characters SQLite's [sqlite3Isspace] accepts. *)
Definition is_space (c : ascii) : bool :=
  let n := nat_of_ascii c in
  (n =? 32)%nat || ((9 <=? n)%nat && (n <=? 13)%nat).

End Str.

(* ------------------------------------------------------------------------- *)
(** ** Outcome of a call *)

Inductive exception : Set :=
| regex_error.   (* boost::regex_error, thrown by the pattern compiler *)

Inductive outcome (A : Type) : Type :=
| Returned (a : A)
| Threw (e : exception)   (* an exception leaves the function uncaught *)
| Diverged                (* the function never comes back *)
| Aborted.                (* a failed assert, or a null pointer read *)

Arguments Returned {A} a.
Arguments Threw {A} e.
Arguments Diverged {A}.
Arguments Aborted {A}.

Definition bind {A B : Type} (c : outcome A) (k : A -> outcome B) : outcome B :=
  match c with
  | Returned a => k a
  | Threw e => Threw e
  | Diverged => Diverged
  | Aborted => Aborted
  end.

Declare Scope outcome_scope.
Delimit Scope outcome_scope with outcome.
Notation "x <- c ;; k" := (bind c (fun x => k))
  (at level 61, c at next level, right associativity) : outcome_scope.
Open Scope outcome_scope.

(* ------------------------------------------------------------------------- *)
(** ** The SQLite interface used by the file *)

Module Sqlite.

Inductive sqlite3_value : Type :=
| SqlNull
| SqlInteger (i : Z)
| SqlText (z : string).

Inductive datatype : Set := SQLITE_INTEGER | SQLITE_TEXT | SQLITE_NULL.

Definition datatype_eqb (a b : datatype) : bool :=
  match a, b with
  | SQLITE_INTEGER, SQLITE_INTEGER
  | SQLITE_TEXT, SQLITE_TEXT
  | SQLITE_NULL, SQLITE_NULL => true
  | _, _ => false
  end.

Definition sqlite3_value_type (v : sqlite3_value) : datatype :=
  match v with
  | SqlNull => SQLITE_NULL
  | SqlInteger _ => SQLITE_INTEGER
  | SqlText _ => SQLITE_TEXT
  end.

(** Decimal rendering of an integer, as SQLite converts INTEGER to TEXT. *)
Definition decimal (i : Z) : string :=
  NilZero.string_of_int (Z.to_int i).

(** [sqlite3_value_text]: a NUL-terminated buffer, or the null pointer
    ([None]) for SQL NULL. *)
Definition sqlite3_value_text (v : sqlite3_value) : option string :=
  match v with
  | SqlNull => None
  | SqlInteger i => Some (decimal i)
  | SqlText z => Some z
  end.

(** The digits at the head of [z], accumulated onto [acc]. *)
Fixpoint leading_digits (z : string) (acc : Z) : Z :=
  match z with
  | EmptyString => acc
  | String c z' =>
      if Str.is_digit c then leading_digits z' (acc * 10 + Str.digit_value c)
      else acc
  end.

Fixpoint skip_spaces (z : string) : string :=
  match z with
  | EmptyString => EmptyString
  | String c z' => if Str.is_space c then skip_spaces z' else z
  end.

(** SQLite's TEXT to INTEGER conversion: optional spaces, an optional sign,
    then the longest run of digits; anything after it is ignored and the
    value saturates at the 64-bit bounds. *)
Definition text_to_int64 (z : string) : Z :=
  match skip_spaces z with
  | String "-"%char z' => clamp_int64 (- leading_digits z' 0)
  | String "+"%char z' => clamp_int64 (leading_digits z' 0)
  | z' => clamp_int64 (leading_digits z' 0)
  end.

(** [sqlite3_value_int]: the value as a 64-bit integer, cut to its low 32
    bits by the conversion to [int]. *)
Definition sqlite3_value_int (v : sqlite3_value) : Z :=
  match v with
  | SqlNull => 0
  | SqlInteger i => static_cast_int i
  | SqlText z => static_cast_int (text_to_int64 (Str.of_c_str z))
  end.

(** What a call left in the engine context: which [sqlite3_result_*]
    routine ran last, with the arguments it was given. *)
Inductive sqlite3_context : Type :=
| ResultUnset
| ResultNull
| ResultInt64 (v : Z)
| ResultText (z : string) (n : Z)
| ResultError (msg : string) (n : Z).

Definition sqlite3_result_null (context : sqlite3_context) : sqlite3_context :=
  ResultNull.

Definition sqlite3_result_int64 (context : sqlite3_context) (v : Z)
  : sqlite3_context :=
  ResultInt64 v.

(** The destructor argument is always [SQLITE_TRANSIENT] in this file: the
    engine copies the buffer, so the context holds the bytes themselves. *)
Definition sqlite3_result_text (context : sqlite3_context) (z : string) (n : Z)
  : sqlite3_context :=
  ResultText z n.

Definition sqlite3_result_error (context : sqlite3_context) (msg : string)
  (n : Z) : sqlite3_context :=
  ResultError msg n.

Definition is_error (context : sqlite3_context) : bool :=
  match context with
  | ResultError _ _ => true
  | _ => false
  end.

End Sqlite.
Export Sqlite.

(* ------------------------------------------------------------------------- *)
(** ** The C library: [inet_pton(AF_INET, ...)] *)

Module Libc.

(** The loop of [inet_pton4]: [tmp] holds the octets already closed by a
    dot, [cur] is the octet under the write pointer, [octets] counts the
    octets started so far. *)
Fixpoint inet_pton4_loop (src : string) (tmp : list Z) (cur : Z)
  (saw_digit : bool) (octets : nat) : option (list Z) :=
  match src with
  | EmptyString =>
      if (octets <? 4)%nat then None else Some (tmp ++ [cur])
  | String ch src' =>
      if Str.is_digit ch then
        let new := cur * 10 + Str.digit_value ch in
        if saw_digit && (cur =? 0) then None
        else if 255 <? new then None
        else if saw_digit then inet_pton4_loop src' tmp new true octets
        else if (4 <? S octets)%nat then None
        else inet_pton4_loop src' tmp new true (S octets)
      else if Ascii.eqb ch "."%char && saw_digit then
        if (octets =? 4)%nat then None
        else inet_pton4_loop src' (tmp ++ [cur]) 0 false octets
      else None
  end.

(** [inet_pton(AF_INET, src, dst)]: [Some] of the four bytes stored at
    [dst], in network order, when the call returns 1; [None] when it
    returns 0. *)
Definition inet_pton (src : string) : option (list Z) :=
  inet_pton4_loop src [] 0 false 0.

End Libc.
Export Libc.

(* ------------------------------------------------------------------------- *)
(** ** [osquery::split] of [osquery/core/conversions.h] *)

Definition SplitResult : Type := list string.

Module Conversions.

(** Membership of a character in the delimiter set. *)
Definition is_any_of (tokens : string) (c : ascii) : bool :=
  Str.contains c tokens.

(** Modelled from the spec: the runs of [input] between delimiter
    characters, left to right, every delimiter character closing the run
    before it (the decomposition [osquery::split] is built on). *)
Fixpoint runs (tokens input : string) : list string :=
  match input with
  | EmptyString => [EmptyString]
  | String c rest =>
      if is_any_of tokens c then EmptyString :: runs tokens rest
      else
        match runs tokens rest with
        | run :: more => String c run :: more
        | [] => [String c EmptyString]
        end
  end.

(** Modelled from the spec: [osquery::split(input, tokens)], declared in
    [osquery/core/conversions.h] and defined in another file.
    Token split decomposes the input into maximal runs of characters not
    in the delimiter set, each character of the set independently ending a
    run.  Whether an empty run (two delimiters in a row, a delimiter at
    either end) is an element of the result is left open there; it is the
    parameter [keep_empty]. *)
Definition split (keep_empty : bool) (input tokens : string) : SplitResult :=
  if keep_empty then runs tokens input
  else filter (fun run => negb (Str.empty run)) (runs tokens input).

End Conversions.

(* ------------------------------------------------------------------------- *)
(** ** The split and replace drivers *)

Definition StringSplitFunction : Type :=
  string -> string -> outcome SplitResult.

Definition StringReplaceFunction : Type :=
  string -> string -> string -> outcome string.

(** A registered implementation: context and [argv] in, context out;
    [argc] is the length of [argv]. *)
Definition ScalarFunction : Type :=
  sqlite3_context -> list sqlite3_value -> outcome sqlite3_context.

(** [std::string((char* )sqlite3_value_text(v))]. *)
Definition std_string (p : option string) : outcome string :=
  match p with
  | Some z => Returned (Str.of_c_str z)
  | None => Aborted
  end.

Definition is_null (v : sqlite3_value) : bool :=
  datatype_eqb SQLITE_NULL (sqlite3_value_type v).

Section TokenSplit.

Variable keep_empty : bool.

Definition tokenSplit : StringSplitFunction :=
  fun input tokens => Returned (Conversions.split keep_empty input tokens).

End TokenSplit.

Definition callStringSplitFunc (context : sqlite3_context)
  (argv : list sqlite3_value) (f : StringSplitFunction)
  : outcome sqlite3_context :=
  match argv with
  | [argv0; argv1; argv2] =>
      if is_null argv0 || is_null argv1 || is_null argv2 then
        Returned (sqlite3_result_null context)
      else
        input <- std_string (sqlite3_value_text argv0) ;;
        token <- std_string (sqlite3_value_text argv1) ;;
        let index := static_cast_size_t (sqlite3_value_int argv2) in
        if Str.empty token then
          Returned
            (sqlite3_result_error context "Invalid input to split function" (-1))
        else
          result <- f input token ;;
          if Z.of_nat (List.length result) <=? index then
            Returned (sqlite3_result_null context)
          else
            let selected := nth (Z.to_nat index) result EmptyString in
            Returned
              (sqlite3_result_text context selected
                 (static_cast_int (Str.size selected)))
  | _ => Aborted   (* assert(argc == 3) *)
  end.

Definition callStringReplaceFunc (context : sqlite3_context)
  (argv : list sqlite3_value) (f : StringReplaceFunction)
  : outcome sqlite3_context :=
  match argv with
  | [argv0; argv1; argv2] =>
      if is_null argv0 || is_null argv1 || is_null argv2 then
        Returned (sqlite3_result_null context)
      else
        input <- std_string (sqlite3_value_text argv0) ;;
        find_string <- std_string (sqlite3_value_text argv1) ;;
        replace_with <- std_string (sqlite3_value_text argv2) ;;
        if Str.empty find_string then
          Returned
            (sqlite3_result_error context
               "Invalid substring to find in replace function" (-1))
        else
          result <- f input find_string replace_with ;;
          Returned
            (sqlite3_result_text context result
               (static_cast_int (Str.size result)))
  | _ => Aborted   (* assert(argc == 3) *)
  end.

(* ------------------------------------------------------------------------- *)
(** ** [inet_aton] *)

Section Inet.

(** Byte order of the machine the code runs on. *)
Variable host : byte_order.

Definition ip4StringToDecimalFunc : ScalarFunction :=
  fun context argv =>
    match argv with
    | [argv0] =>
        if is_null argv0 then Returned (sqlite3_result_null context)
        else
          address <- std_string (sqlite3_value_text argv0) ;;
          if Str.contains ":"%char address then
            Returned (sqlite3_result_null context)
          else
            match inet_pton address with
            | Some sin_addr =>
                Returned
                  (sqlite3_result_int64 context
                     (ntohl host (load_uint32 host sin_addr)))
            | None => Returned (sqlite3_result_null context)
            end
    | _ => Aborted   (* assert(argc == 1) *)
    end.

End Inet.

(* ------------------------------------------------------------------------- *)
(** ** Boost.Regex and the Boost string algorithms *)

Module Boost.

(** A successful search: where the match starts, counted from the start of
    the searched range, how long it is, and the text of the marked
    sub-expressions that took part in it. *)
Record match_results : Type := {
  match_position : nat;
  match_length : nat;
  match_captures : list (nat * string)
}.

(** The regular-expression library, as far as the file uses it.
    - [regex_compile p] is the constructor [boost::regex(p)]: [None] when
      it throws [regex_error].
    - [regex_search e before text not_initial_null] is [regex_search] over
      the range [text], which [before] precedes in the searched buffer;
      the flag is [match_not_initial_null].
    - [match_format what input first fmt] is [what.format(fmt)] for a match
      that starts at offset [first] of [input]. *)
Class RegexEngine : Type := {
  regex : Type;
  regex_compile : string -> option regex;
  regex_search : regex -> string -> string -> bool -> option match_results;
  match_format : match_results -> string -> nat -> string -> string
}.

(** What is assumed of an engine: a match lies inside the searched range,
    and under [match_not_initial_null] it is not the empty match at the
    start of the range. *)
Class RegexLaws (engine : RegexEngine) : Prop := {
  regex_search_in_range :
    forall e before text flag what,
      regex_search e before text flag = Some what ->
      (match_position what + match_length what <= String.length text)%nat;
  regex_search_not_initial_null :
    forall e before text what,
      regex_search e before text true = Some what ->
      (0 < match_position what + match_length what)%nat
}.

Section Algorithms.

Context {engine : RegexEngine}.

(** *** [boost::algorithm::split_regex] *)

(** The state of a [split_iterator] over [input]: offsets stand for the
    iterators, [String.length input] for [m_End]. *)
Record split_iterator : Type := {
  m_Match : nat * nat;
  m_Next : nat;
  m_bEof : bool
}.

(** [regex_finder(Rx)] applied to [[from, End)]: the first match, or the
    empty range at [End]. *)
Definition do_find (Rx : regex) (input : string) (from : nat) : nat * nat :=
  let End := String.length input in
  match regex_search Rx EmptyString (Str.from from input) false with
  | Some what =>
      ((from + match_position what)%nat,
       (from + match_position what + match_length what)%nat)
  | None => (End, End)
  end.

Definition increment (Rx : regex) (input : string) (it : split_iterator)
  : split_iterator :=
  let End := String.length input in
  let FindMatch := do_find Rx input (m_Next it) in
  let eof :=
    if (fst FindMatch =? End)%nat && (snd FindMatch =? End)%nat then
      if (snd (m_Match it) =? End)%nat then true else m_bEof it
    else m_bEof it in
  {| m_Match := (m_Next it, fst FindMatch);
     m_Next := snd FindMatch;
     m_bEof := eof |}.

(** The constructor: one token at least, also for an empty input. *)
Definition make_split_iterator (Rx : regex) (input : string)
  : split_iterator :=
  let Begin := 0%nat in
  let it := {| m_Match := (Begin, Begin); m_Next := Begin; m_bEof := false |} in
  if (Begin =? String.length input)%nat then it else increment Rx input it.

Definition dereference (input : string) (it : split_iterator) : string :=
  Str.range (fst (m_Match it)) (snd (m_Match it)) input.

(** Filling the result from the iterator range, [fuel] steps at most. *)
Fixpoint collect (fuel : nat) (Rx : regex) (input : string)
  (it : split_iterator) : option (list string) :=
  match fuel with
  | O => None
  | S fuel' =>
      if m_bEof it then Some []
      else
        option_map (cons (dereference input it))
          (collect fuel' Rx input (increment Rx input it))
  end.

(** [split_regex(Result, Input, Rx)]; [None] when the iteration does not
    end. An iteration that ends at all ends within
    [String.length Input + 2] steps ([collect_fuel_enough] below). *)
Definition split_regex (Input : string) (Rx : regex) : option (list string) :=
  collect (String.length Input + 2) Rx Input (make_split_iterator Rx Input).

(** *** [boost::regex_replace] *)

(** The loop over a [regex_iterator]: [what] is the match under the
    iterator, found by a search that started at offset [start]. After an
    empty match the iterator searches on with [match_not_initial_null]. *)
Fixpoint replace_matches (fuel : nat) (e : regex) (input fmt : string)
  (start : nat) (what : match_results) : option string :=
  match fuel with
  | O => None
  | S fuel' =>
      let first := (start + match_position what)%nat in
      let last_m := (first + match_length what)%nat in
      let out :=
        (Str.range start first input ++ match_format what input first fmt)%string in
      match
        regex_search e (Str.range 0 last_m input) (Str.from last_m input)
          (match_length what =? 0)%nat
      with
      | None => Some (out ++ Str.from last_m input)%string
      | Some next =>
          option_map (append out)
            (replace_matches fuel' e input fmt last_m next)
      end
  end.

(** [regex_replace(input, e, fmt)] with the default flags. The fuel is
    never used up by an engine that obeys [RegexLaws]
    ([regex_replace_spec] below). *)
Definition regex_replace (input : string) (e : regex) (fmt : string)
  : option string :=
  match regex_search e EmptyString input false with
  | None => Some input
  | Some what =>
      replace_matches (2 * String.length input + 2) e input fmt 0 what
  end.

End Algorithms.

End Boost.
Export Boost.

(* ------------------------------------------------------------------------- *)
(** ** The regular-expression functions and the registration *)

Section RegexFunctions.

Context {engine : RegexEngine}.

Definition regexSplit : StringSplitFunction :=
  fun input token =>
    match regex_compile token with
    | None => Threw regex_error
    | Some rx =>
        match split_regex input rx with
        | Some result => Returned result
        | None => Diverged
        end
    end.

Definition regexReplace : StringReplaceFunction :=
  fun input pattern replace_with =>
    match regex_compile pattern with
    | None => Threw regex_error
    | Some rx =>
        match regex_replace input rx replace_with with
        | Some result => Returned result
        | None => Diverged
        end
    end.

Variable keep_empty : bool.
Variable host : byte_order.

Definition tokenStringSplitFunc : ScalarFunction :=
  fun context argv => callStringSplitFunc context argv (tokenSplit keep_empty).

Definition regexStringSplitFunc : ScalarFunction :=
  fun context argv => callStringSplitFunc context argv regexSplit.

Definition regexStringReplaceFunc : ScalarFunction :=
  fun context argv => callStringReplaceFunc context argv regexReplace.

(** An entry of the engine's function table. *)
Record FunctionDescriptor : Type := {
  zFunctionName : string;
  nArg : nat;
  xFunc : ScalarFunction
}.

Definition sqlite3 : Type := list FunctionDescriptor.

Definition sqlite3_create_function (db : sqlite3) (name : string) (n : nat)
  (f : ScalarFunction) : sqlite3 :=
  {| zFunctionName := name; nArg := n; xFunc := f |} :: db.

Definition registerStringExtensions (db : sqlite3) : sqlite3 :=
  let db := sqlite3_create_function db "split" 3 tokenStringSplitFunc in
  let db := sqlite3_create_function db "regex_split" 3 regexStringSplitFunc in
  let db := sqlite3_create_function db "regex_replace" 3 regexStringReplaceFunc in
  sqlite3_create_function db "inet_aton" 1 (ip4StringToDecimalFunc host).

End RegexFunctions.

(* ------------------------------------------------------------------------- *)
(** ** A reference engine for a fragment of the Perl syntax

    The fragment: literal characters, backslash-escaped punctuation, [.],
    bracket sets with ranges and negation, grouping with capture,
    alternation, and the greedy repeats [*], [+] and [?]. Matching is
    leftmost with Perl's backtracking priorities. A pattern outside the
    fragment is refused by [compile], so only what this engine does on
    patterns of the fragment carries over to Boost.Regex. *)

Module PerlFragment.

Inductive re : Type :=
| Empty
| Chars (negated : bool) (set : list (ascii * ascii))
| Cat (a b : re)
| Alt (a b : re)
| Star (a : re)
| Group (n : nat) (a : re).

Definition ascii_leb (a b : ascii) : bool :=
  (nat_of_ascii a <=? nat_of_ascii b)%nat.

Definition in_set (set : list (ascii * ascii)) (c : ascii) : bool :=
  existsb (fun r => ascii_leb (fst r) c && ascii_leb c (snd r)) set.

Definition is_alnum (c : ascii) : bool :=
  let n := nat_of_ascii c in
  ((48 <=? n) && (n <=? 57) || (65 <=? n) && (n <=? 90)
   || (97 <=? n) && (n <=? 122))%nat.

(** *** Compilation *)

(** The items of a bracket set, after the opening bracket and the
    optional [^]; the rest of the pattern follows the closing bracket. *)
Fixpoint parse_set (s : string) (acc : list (ascii * ascii))
  : option (list (ascii * ascii) * string) :=
  match s with
  | EmptyString => None
  | String "]" rest =>
      match acc with [] => None | _ => Some (rev acc, rest) end
  | String "[" _ => None
  | String "\" EmptyString => None
  | String "\" (String c rest) =>
      if is_alnum c then None else parse_set rest ((c, c) :: acc)
  | String lo (String "-" (String hi rest) as tail) =>
      if Ascii.eqb hi "]" then parse_set tail ((lo, lo) :: acc)
      else if Ascii.eqb hi "\" || Ascii.eqb hi "[" then None
      else if ascii_leb lo hi then parse_set rest ((lo, hi) :: acc)
      else None
  | String c rest => parse_set rest ((c, c) :: acc)
  end.

Definition is_repeat (s : string) : bool :=
  match s with
  | String "*" _ | String "+" _ | String "?" _ | String "{" _ => true
  | _ => false
  end.

(** Recursive descent; [g] counts the groups opened so far. *)
Fixpoint parse_alt (fuel : nat) (s : string) (g : nat)
  : option (re * string * nat) :=
  match fuel with
  | O => None
  | S fuel' =>
      match parse_seq fuel' s g with
      | Some (a, String "|" rest, g1) =>
          match parse_alt fuel' rest g1 with
          | Some (b, rest', g2) => Some (Alt a b, rest', g2)
          | None => None
          end
      | other => other
      end
  end
with parse_seq (fuel : nat) (s : string) (g : nat)
  : option (re * string * nat) :=
  match fuel with
  | O => None
  | S fuel' =>
      match s with
      | EmptyString | String "|" _ | String ")" _ => Some (Empty, s, g)
      | _ =>
          match parse_repeat fuel' s g with
          | Some (a, rest, g1) =>
              match parse_seq fuel' rest g1 with
              | Some (b, rest', g2) => Some (Cat a b, rest', g2)
              | None => None
              end
          | None => None
          end
      end
  end
with parse_repeat (fuel : nat) (s : string) (g : nat)
  : option (re * string * nat) :=
  match fuel with
  | O => None
  | S fuel' =>
      match parse_atom fuel' s g with
      | Some (a, String q rest, g1) =>
          if Ascii.eqb q "*" then
            if is_repeat rest then None else Some (Star a, rest, g1)
          else if Ascii.eqb q "+" then
            if is_repeat rest then None else Some (Cat a (Star a), rest, g1)
          else if Ascii.eqb q "?" then
            if is_repeat rest then None else Some (Alt a Empty, rest, g1)
          else if Ascii.eqb q "{" then None
          else Some (a, String q rest, g1)
      | other => other
      end
  end
with parse_atom (fuel : nat) (s : string) (g : nat)
  : option (re * string * nat) :=
  match fuel with
  | O => None
  | S fuel' =>
      match s with
      | EmptyString => None
      | String "(" (String "?" _) => None
      | String "(" rest =>
          match parse_alt fuel' rest (S g) with
          | Some (a, String ")" rest', g1) => Some (Group (S g) a, rest', g1)
          | _ => None
          end
      | String "[" (String "^" rest) =>
          match parse_set rest [] with
          | Some (set, rest') => Some (Chars true set, rest', g)
          | None => None
          end
      | String "[" rest =>
          match parse_set rest [] with
          | Some (set, rest') => Some (Chars false set, rest', g)
          | None => None
          end
      | String "." rest => Some (Chars true [], rest, g)
      | String "\" EmptyString => None
      | String "\" (String c rest) =>
          if is_alnum c then None else Some (Chars false [(c, c)], rest, g)
      | String c rest =>
          if existsb (Ascii.eqb c) [")"; "|"; "*"; "+"; "?"; "{"; "}"; "]"; "^"; "$"]%char
          then None
          else Some (Chars false [(c, c)], rest, g)
      end
  end.

Definition compile (p : string) : option re :=
  match parse_alt (4 * String.length p + 4) p 0 with
  | Some (e, EmptyString, _) => Some e
  | _ => None
  end.

(** *** Matching *)

Definition caps : Type := list (nat * string).

(** Backtracking matcher in continuation style: [k] receives what is left
    of the text and the captures once [e] has matched a prefix, and a
    [None] from [k] makes the matcher try its next alternative. A repeat
    does not iterate over an empty match. *)
Fixpoint run {R : Type} (e : re) (s : string) (c : caps)
  (k : string -> caps -> option R) : option R :=
  match e with
  | Empty => k s c
  | Chars negated set =>
      match s with
      | EmptyString => None
      | String x s' => if xorb negated (in_set set x) then k s' c else None
      end
  | Cat a b => run a s c (fun s' c' => run b s' c' k)
  | Alt a b =>
      match run a s c k with
      | Some r => Some r
      | None => run b s c k
      end
  | Star a =>
      (fix star (n : nat) (s : string) (c : caps) : option R :=
         match n with
         | O => k s c
         | S n' =>
             match
               run a s c
                 (fun s' c' =>
                    if (String.length s' <? String.length s)%nat
                    then star n' s' c' else None)
             with
             | Some r => Some r
             | None => k s c
             end
         end) (String.length s) s c
  | Group n a =>
      run a s c
        (fun s' c' =>
           k s' ((n, substring 0 (String.length s - String.length s') s) :: c'))
  end.

(** The leftmost match in [text]; [at_] is the offset of [text] in the
    searched range, and [not_null] forbids an empty match here. *)
Fixpoint search_at (e : re) (text : string) (at_ : nat) (not_null : bool)
  : option match_results :=
  match
    run e text []
      (fun rest c =>
         let n := (String.length text - String.length rest)%nat in
         if not_null && (n =? 0)%nat then None else Some (n, c))
  with
  | Some (n, c) =>
      Some {| match_position := at_; match_length := n; match_captures := c |}
  | None =>
      match text with
      | EmptyString => None
      | String _ text' => search_at e text' (S at_) false
      end
  end.

Definition search (e : re) (before text : string) (not_initial_null : bool)
  : option match_results :=
  search_at e text 0 not_initial_null.

(** *** Formatting: literal text, [$&], [$$], [$n] and [\n] for one digit *)

Definition sub_match (what : match_results) (matched : string) (n : nat)
  : string :=
  if (n =? 0)%nat then matched
  else
    match find (fun c => (fst c =? n)%nat) (match_captures what) with
    | Some (_, text) => text
    | None => EmptyString
    end.

Fixpoint format (fmt : string) (what : match_results) (matched : string)
  : string :=
  match fmt with
  | EmptyString => EmptyString
  | String "$" (String "&" rest) => (matched ++ format rest what matched)%string
  | String "$" (String "$" rest) => String "$" (format rest what matched)
  | String "$" (String d rest as tail) =>
      if Str.is_digit d then
        (sub_match what matched (Z.to_nat (Str.digit_value d))
         ++ format rest what matched)%string
      else String "$" (format tail what matched)
  | String "\" (String d rest) =>
      if Str.is_digit d then
        (sub_match what matched (Z.to_nat (Str.digit_value d))
         ++ format rest what matched)%string
      else String d (format rest what matched)
  | String c rest => String c (format rest what matched)
  end.

Definition engine : RegexEngine :=
  {| regex := re;
     regex_compile := compile;
     regex_search := search;
     match_format := fun what input first fmt =>
       format fmt what (Str.range first (first + match_length what) input) |}.

End PerlFragment.

(* ------------------------------------------------------------------------- *)
(** ** Vocabulary of the statements *)

(** The [std::string] the drivers build from a non-NULL argument. *)
Definition text_of (v : sqlite3_value) : string :=
  match sqlite3_value_text v with
  | Some z => Str.of_c_str z
  | None => EmptyString
  end.

Definition octet (x : Z) : Prop := 0 <= x <= 255.

(** The dotted-decimal text of four octets. *)
Definition dotted (a b c d : Z) : string :=
  (decimal a ++ "." ++ decimal b ++ "." ++ decimal c ++ "." ++ decimal d)%string.

(** Offsets into a string. *)

Fixpoint drop (n : nat) (s : string) : string :=
  match n, s with
  | O, _ => s
  | S n', String _ s' => drop n' s'
  | S _, EmptyString => EmptyString
  end.

Fixpoint take (n : nat) (s : string) : string :=
  match n, s with
  | S n', String c s' => String c (take n' s')
  | _, _ => EmptyString
  end.

Section TokenRunsVocabulary.

Variable tokens : string.




End TokenRunsVocabulary.

Section RegexVocabulary.

Context {engine : RegexEngine}.
Variable Rx : regex.

(** The search finds nothing in [s], or only the empty match at its end. *)
Definition no_match_before_end (s : string) : Prop :=
  match regex_search Rx EmptyString s false with
  | None => True
  | Some what => match_position what = String.length s
  end.

(** Decomposition of a text at the successive leftmost matches: the text
    before the first match, then the decomposition of what follows it. *)
Inductive SplitAtMatches : string -> list string -> Prop :=
| split_whole (s : string) :
    no_match_before_end s -> SplitAtMatches s [s]
| split_at (s : string) (what : match_results) (rest : list string) :
    regex_search Rx EmptyString s false = Some what ->
    (match_position what < String.length s)%nat ->
    SplitAtMatches
      (Str.from (match_position what + match_length what) s) rest ->
    SplitAtMatches s (Str.range 0 (match_position what) s :: rest).

(** A state whose token has been delivered and was cut by a match. *)
Definition cut_by_match (input : string) (it : split_iterator) : Prop :=
  m_bEof it = false /\ (snd (m_Match it) < String.length input)%nat
  /\ (m_Next it <= String.length input)%nat.

Variables (input fmt : string).

(** Substitution of all matches from offset [start] on: the text up to
    the next match, the formatted match, and the same again after it;
    the rest of the input when the search fails. [flag] tells whether
    the search at [start] follows an empty match. *)
Inductive ReplacedFrom : nat -> bool -> string -> Prop :=
| replaced_rest (start : nat) (flag : bool) :
    regex_search Rx (Str.range 0 start input) (Str.from start input) flag
    = None ->
    ReplacedFrom start flag (Str.from start input)
| replaced_match (start : nat) (flag : bool) (what : match_results)
    (out : string) :
    regex_search Rx (Str.range 0 start input) (Str.from start input) flag
    = Some what ->
    let first := (start + match_position what)%nat in
    let last_m := (first + match_length what)%nat in
    ReplacedFrom last_m (match_length what =? 0)%nat out ->
    ReplacedFrom start flag
      (Str.range start first input ++ match_format what input first fmt
       ++ out)%string.


End RegexVocabulary.

(** The four octets of an unsigned 32-bit value, most significant first. *)
Definition octets_of (v : Z) : list Z :=
  [v / 2 ^ 24; (v / 2 ^ 16) mod 2 ^ 8; (v / 2 ^ 8) mod 2 ^ 8; v mod 2 ^ 8].

(** The big-endian reading of stored address bytes. *)
Definition big_endian (mem : list Z) : Z :=
  match mem with
  | [a; b; c; d] => a * 2 ^ 24 + b * 2 ^ 16 + c * 2 ^ 8 + d
  | _ => 0
  end.

(** Lexicographic order on stored address bytes. *)
Fixpoint lex_lt (m m' : list Z) : Prop :=
  match m, m' with
  | x :: rest, x' :: rest' => x < x' \/ (x = x' /\ lex_lt rest rest')
  | _, _ => False
  end.

(** Tokens put back together around the separators between them. *)
Fixpoint join_tokens (toks seps : list string) : string :=
  match toks with
  | [] => EmptyString
  | tok :: more =>
      match seps with
      | [] => tok
      | sep :: seps' => (tok ++ sep ++ join_tokens more seps')%string
      end
  end.

(* ------------------------------------------------------------------------- *)
(** * Properties *)

(** ** The reference engine obeys the laws *)

Module PerlFragmentLaws.
Import PerlFragment.

Lemma run_from_continuation {R : Type} (e : re) :
  forall s c (k : string -> caps -> option R) r,
    run e s c k = Some r -> exists s' c', k s' c' = Some r.
Proof.
  induction e as [| negated set | a IHa b IHb | a IHa b IHb | a IHa | n a IHa];
    intros s c k r; simpl.
  - intros H. eauto.
  - destruct s as [| x s']; [discriminate |].
    destruct (xorb negated (in_set set x)); [eauto | discriminate].
  - intros H. apply IHa in H. destruct H as (s' & c' & H).
    apply IHb in H. exact H.
  - destruct (run a s c k) eqn:Ha.
    + intros H. injection H as <-. eapply IHa. exact Ha.
    + apply IHb.
  - generalize (String.length s) at 1. intros n. revert s c r.
    induction n as [| n IHn]; intros s c r.
    + eauto.
    + match goal with
      | |- context [run a s c ?k'] => destruct (run a s c k') eqn:Ha
      end.
      * intros H. injection H as <-. apply IHa in Ha.
        destruct Ha as (s' & c' & Ha).
        destruct (String.length s' <? String.length s)%nat; [| discriminate].
        eapply IHn. exact Ha.
      * eauto.
  - intros H. apply IHa in H. destruct H as (s' & c' & H). eauto.
Qed.

(** One attempt at a fixed start: the length reported is what the final
    continuation computed. *)
Lemma attempt_length (e : re) (text : string) (not_null : bool) n cs :
  run e text []
    (fun rest c =>
       let n := (String.length text - String.length rest)%nat in
       if not_null && (n =? 0)%nat then None else Some (n, c)) = Some (n, cs) ->
  (n <= String.length text)%nat /\ (not_null = true -> 0 < n)%nat.
Proof.
  intros Hr. apply run_from_continuation in Hr.
  destruct Hr as (s' & c' & Hr). cbv zeta in Hr.
  destruct not_null; cbn [andb] in Hr.
  - destruct (String.length text - String.length s' =? 0)%nat eqn:E;
      [discriminate |].
    apply Nat.eqb_neq in E. injection Hr as <- _. split; [lia | intros _; lia].
  - injection Hr as <- _. split; [lia | discriminate].
Qed.

Lemma search_at_unfold (e : re) (text : string) (at_ : nat) (not_null : bool) :
  search_at e text at_ not_null =
  match
    run e text []
      (fun rest c =>
         let n := (String.length text - String.length rest)%nat in
         if not_null && (n =? 0)%nat then None else Some (n, c))
  with
  | Some (n, c) =>
      Some {| match_position := at_; match_length := n; match_captures := c |}
  | None =>
      match text with
      | EmptyString => None
      | String _ text' => search_at e text' (S at_) false
      end
  end.
Proof. destruct text; reflexivity. Qed.

Lemma search_at_bounds (e : re) :
  forall text at_ flag what,
    search_at e text at_ flag = Some what ->
    (at_ <= match_position what)%nat /\
    (match_position what + match_length what <= at_ + String.length text)%nat /\
    (flag = true -> 0 < match_position what + match_length what - at_)%nat.
Proof.
  induction text as [| x text IH]; intros at_ flag what;
    rewrite search_at_unfold;
    match goal with
    | |- context [run e ?s ?c ?k] => destruct (run e s c k) as [[n cs] |] eqn:Hr
    end; try discriminate.
  - intros H. injection H as <-. apply attempt_length in Hr.
    cbn [match_position match_length]. destruct Hr as [H1 H2].
    repeat split; try lia. intros F. specialize (H2 F). lia.
  - intros H. injection H as <-. apply attempt_length in Hr.
    cbn [match_position match_length]. destruct Hr as [H1 H2].
    repeat split; try lia. intros F. specialize (H2 F). lia.
  - intros H. apply IH in H. cbn [String.length]. lia.
Qed.

Lemma search_in_range :
  forall e before text flag what,
    search e before text flag = Some what ->
    (match_position what + match_length what <= String.length text)%nat.
Proof.
  unfold search. intros e before text flag what H.
  apply search_at_bounds in H. lia.
Qed.

Lemma search_not_initial_null :
  forall e before text what,
    search e before text true = Some what ->
    (0 < match_position what + match_length what)%nat.
Proof.
  unfold search. intros e before text what H.
  apply search_at_bounds in H. destruct H as (_ & _ & H).
  specialize (H eq_refl). lia.
Qed.

Lemma lawful : RegexLaws PerlFragment.engine.
Proof.
  constructor.
  - exact search_in_range.
  - exact search_not_initial_null.
Qed.

End PerlFragmentLaws.


(** ** The examples in the comments of the source *)

Example tokenSplit_comment_2 (keep_empty : bool) :
  tokenStringSplitFunc keep_empty ResultUnset
    [SqlText "192.168.0.1"; SqlText "."; SqlInteger 1]
  = Returned (ResultText "168" 3).
Proof. destruct keep_empty; reflexivity. Qed.

Example tokenSplit_comment_3 (keep_empty : bool) :
  tokenStringSplitFunc keep_empty ResultUnset
    [SqlText "192.168.0.1"; SqlText ".0"; SqlInteger 0]
  = Returned (ResultText "192" 3).
Proof. destruct keep_empty; reflexivity. Qed.

Example regexSplit_comment_2 :
  regexSplit (engine := PerlFragment.engine) "192.168.0.1" "\."
  = Returned ["192"; "168"; "0"; "1"].
Proof. reflexivity. Qed.

Example regexSplit_comment_3 :
  regexSplit (engine := PerlFragment.engine) "192.168.0.1" "\.0"
  = Returned ["192.168"; ".1"].
Proof. reflexivity. Qed.

Example regexReplace_comment_2 :
  regexReplace (engine := PerlFragment.engine)
    "/Users/osquery_dev/workspace/osquery/build/darwin/osquery/osqueryi"
    "/Users/[^/]+/" "./"
  = Returned "./workspace/osquery/build/darwin/osquery/osqueryi".
Proof. reflexivity. Qed.

(** A pattern that matches the empty string before the end of the input
    keeps the split iterator where it is: the result grows without end. *)
Example regexSplit_empty_match :
  regexSplit (engine := PerlFragment.engine) "abc" "x*" = Diverged.
Proof. reflexivity. Qed.

(** The replace loop steps over empty matches. *)
Example regexReplace_empty_match :
  regexReplace (engine := PerlFragment.engine) "abc" "x*" "-"
  = Returned "-a-b-c-".
Proof. reflexivity. Qed.

(** Marked sub-expressions in the template. *)
Example regexReplace_captures :
  regexReplace (engine := PerlFragment.engine) "key=value" "([a-z]+)=([a-z]+)"
    "$2=$1"
  = Returned "value=key".
Proof. reflexivity. Qed.

(** ** Integer conversions *)

Lemma static_cast_int_range (x : Z) :
  - 2 ^ 31 <= static_cast_int x < 2 ^ 31.
Proof.
  unfold static_cast_int.
  pose proof (Z.mod_pos_bound (x + 2 ^ 31) (2 ^ 32) ltac:(lia)). lia.
Qed.

Lemma static_cast_int_id (x : Z) :
  - 2 ^ 31 <= x < 2 ^ 31 -> static_cast_int x = x.
Proof.
  intros H. unfold static_cast_int. rewrite Z.mod_small; lia.
Qed.

Lemma sqlite3_value_int_range (v : sqlite3_value) :
  - 2 ^ 31 <= sqlite3_value_int v < 2 ^ 31.
Proof.
  destruct v; cbn [sqlite3_value_int];
    [lia | apply static_cast_int_range | apply static_cast_int_range].
Qed.

Lemma static_cast_size_t_nonneg (x : Z) :
  0 <= x < 2 ^ 64 -> static_cast_size_t x = x.
Proof. intros H. unfold static_cast_size_t. apply Z.mod_small. lia. Qed.

(** A negative [int] converted to [size_t] lands in the top 2^31 values. *)
Lemma static_cast_size_t_negative (x : Z) :
  - 2 ^ 31 <= x < 0 -> static_cast_size_t x = x + 2 ^ 64.
Proof.
  intros H. unfold static_cast_size_t.
  symmetry. apply Z.mod_unique with (q := -1); lia.
Qed.


Lemma std_string_text_of (v : sqlite3_value) :
  is_null v = false ->
  std_string (sqlite3_value_text v) = Returned (text_of v).
Proof. destruct v; [discriminate | reflexivity | reflexivity]. Qed.

(** ** Offsets into a string *)

Lemma substring_take_drop (n m : nat) (s : string) :
  substring n m s = take m (drop n s).
Proof.
  revert n m. induction s as [| c s IH]; intros n m.
  - destruct n, m; reflexivity.
  - destruct n as [| n].
    + destruct m as [| m]; [reflexivity |].
      cbn [substring drop take]. rewrite IH. reflexivity.
    + cbn [substring drop]. apply IH.
Qed.

Lemma length_drop (n : nat) (s : string) :
  String.length (drop n s) = (String.length s - n)%nat.
Proof.
  revert n. induction s as [| c s IH]; intros [| n]; cbn [drop String.length];
    try reflexivity. apply IH.
Qed.

Lemma take_all (n : nat) (s : string) :
  (String.length s <= n)%nat -> take n s = s.
Proof.
  revert n. induction s as [| c s IH]; intros [| n] H; cbn [take];
    try reflexivity; cbn [String.length] in H; [lia |].
  rewrite IH by lia. reflexivity.
Qed.

Lemma drop_drop (n k : nat) (s : string) :
  drop k (drop n s) = drop (n + k) s.
Proof.
  revert n. induction s as [| c s IH]; intros [| n]; cbn [drop Nat.add];
    try reflexivity.
  - destruct k; reflexivity.
  - apply IH.
Qed.

Lemma from_drop (n : nat) (s : string) : Str.from n s = drop n s.
Proof.
  unfold Str.from. rewrite substring_take_drop.
  apply take_all. rewrite length_drop. lia.
Qed.

Lemma range_take_drop (b e : nat) (s : string) :
  Str.range b e s = take (e - b) (drop b s).
Proof. apply substring_take_drop. Qed.

Lemma length_from (n : nat) (s : string) :
  String.length (Str.from n s) = (String.length s - n)%nat.
Proof. rewrite from_drop. apply length_drop. Qed.

Lemma from_from (n k : nat) (s : string) :
  Str.from k (Str.from n s) = Str.from (n + k) s.
Proof. rewrite !from_drop. apply drop_drop. Qed.

Lemma from_0 (s : string) : Str.from 0 s = s.
Proof. rewrite from_drop. reflexivity. Qed.

Lemma range_to_end (n : nat) (s : string) :
  Str.range n (String.length s) s = Str.from n s.
Proof. reflexivity. Qed.

Lemma range_in_from (n p : nat) (s : string) :
  Str.range n (n + p) s = Str.range 0 p (Str.from n s).
Proof.
  rewrite !range_take_drop, from_drop. cbn [drop].
  f_equal. lia.
Qed.

Lemma append_assoc (a b c : string) :
  ((a ++ b) ++ c = a ++ b ++ c)%string.
Proof.
  induction a as [| x a IH]; cbn [append]; [reflexivity |].
  rewrite IH. reflexivity.
Qed.

Lemma range_0_0 (s : string) : Str.range 0 0 s = EmptyString.
Proof. destruct s; reflexivity. Qed.

Lemma append_empty_r (s : string) : (s ++ "")%string = s.
Proof.
  induction s as [| c s IH]; cbn [append]; [reflexivity |].
  rewrite IH. reflexivity.
Qed.

Lemma length_0_empty (s : string) : String.length s = 0%nat -> s = EmptyString.
Proof. destruct s; [reflexivity | discriminate]. Qed.

(** ** The drivers, one lemma per exit *)

Section Drivers.

Variables (context : sqlite3_context) (argv0 argv1 argv2 : sqlite3_value).

Lemma callStringSplitFunc_null (f : StringSplitFunction) :
  is_null argv0 || is_null argv1 || is_null argv2 = true ->
  callStringSplitFunc context [argv0; argv1; argv2] f
  = Returned (sqlite3_result_null context).
Proof. intros H. unfold callStringSplitFunc. rewrite H. reflexivity. Qed.

Lemma callStringReplaceFunc_null (f : StringReplaceFunction) :
  is_null argv0 || is_null argv1 || is_null argv2 = true ->
  callStringReplaceFunc context [argv0; argv1; argv2] f
  = Returned (sqlite3_result_null context).
Proof. intros H. unfold callStringReplaceFunc. rewrite H. reflexivity. Qed.

Hypothesis present0 : is_null argv0 = false.
Hypothesis present1 : is_null argv1 = false.
Hypothesis present2 : is_null argv2 = false.

Lemma callStringSplitFunc_present (f : StringSplitFunction) :
  callStringSplitFunc context [argv0; argv1; argv2] f
  = if Str.empty (text_of argv1) then
      Returned
        (sqlite3_result_error context "Invalid input to split function" (-1))
    else
      result <- f (text_of argv0) (text_of argv1) ;;
      let index := static_cast_size_t (sqlite3_value_int argv2) in
      if Z.of_nat (List.length result) <=? index then
        Returned (sqlite3_result_null context)
      else
        let selected := nth (Z.to_nat index) result EmptyString in
        Returned
          (sqlite3_result_text context selected
             (static_cast_int (Str.size selected))).
Proof.
  unfold callStringSplitFunc.
  rewrite present0, present1, present2.
  rewrite !std_string_text_of by assumption. reflexivity.
Qed.

Lemma callStringReplaceFunc_present (f : StringReplaceFunction) :
  callStringReplaceFunc context [argv0; argv1; argv2] f
  = if Str.empty (text_of argv1) then
      Returned
        (sqlite3_result_error context
           "Invalid substring to find in replace function" (-1))
    else
      result <- f (text_of argv0) (text_of argv1) (text_of argv2) ;;
      Returned
        (sqlite3_result_text context result
           (static_cast_int (Str.size result))).
Proof.
  unfold callStringReplaceFunc.
  rewrite present0, present1, present2.
  rewrite !std_string_text_of by assumption. reflexivity.
Qed.

End Drivers.

Lemma existsb_is_null_3 (a b c : sqlite3_value) :
  existsb is_null [a; b; c] = is_null a || is_null b || is_null c.
Proof. simpl. rewrite orb_false_r, orb_assoc. reflexivity. Qed.

(** ** Null propagation *)

(** C1. Each of the four functions [registerStringExtensions] binds, called
    with as many arguments as its arity and a NULL among them, sets the
    NULL result and returns; the pattern is not looked at, so an empty
    pattern next to a NULL argument gives NULL and no error. *)
Theorem null_argument_yields_null {engine : RegexEngine}
  (keep_empty : bool) (host : byte_order) (d : FunctionDescriptor)
  (context : sqlite3_context) (argv : list sqlite3_value) :
  In d (registerStringExtensions keep_empty host []) ->
  List.length argv = nArg d ->
  existsb is_null argv = true ->
  xFunc d context argv = Returned (sqlite3_result_null context).
Proof.
  intros Hd Hlen Hnull.
  unfold registerStringExtensions, sqlite3_create_function in Hd.
  cbn [In] in Hd.
  destruct Hd as [<- | [<- | [<- | [<- | []]]]]; cbn [nArg xFunc] in *.
  - destruct argv as [| a [| ? ?]]; try discriminate.
    unfold ip4StringToDecimalFunc. cbn [existsb] in Hnull.
    rewrite orb_false_r in Hnull. rewrite Hnull. reflexivity.
  - destruct argv as [| a [| b [| c [| ? ?]]]]; try discriminate.
    rewrite existsb_is_null_3 in Hnull.
    apply callStringReplaceFunc_null. exact Hnull.
  - destruct argv as [| a [| b [| c [| ? ?]]]]; try discriminate.
    rewrite existsb_is_null_3 in Hnull.
    apply callStringSplitFunc_null. exact Hnull.
  - destruct argv as [| a [| b [| c [| ? ?]]]]; try discriminate.
    rewrite existsb_is_null_3 in Hnull.
    apply callStringSplitFunc_null. exact Hnull.
Qed.

(** The table holds the four names, each once. *)
Lemma registered_names {engine : RegexEngine} (keep_empty : bool)
  (host : byte_order) :
  map (fun d => (zFunctionName d, nArg d))
    (registerStringExtensions keep_empty host [])
  = [("inet_aton", 1%nat); ("regex_replace", 3%nat); ("regex_split", 3%nat);
     ("split", 3%nat)].
Proof. reflexivity. Qed.

(** A NULL input next to an empty pattern, for [regex_replace]. *)
Lemma null_argument_yields_null_witness :
  regexStringReplaceFunc (engine := PerlFragment.engine) ResultUnset
    [SqlNull; SqlText ""; SqlText "x"]
  = Returned ResultNull.
Proof.
  apply (@null_argument_yields_null PerlFragment.engine true
           LittleEndian
           {| zFunctionName := "regex_replace"; nArg := 3;
              xFunc := regexStringReplaceFunc (engine := PerlFragment.engine) |}
           ResultUnset [SqlNull; SqlText ""; SqlText "x"]).
  - simpl. tauto.
  - reflexivity.
  - reflexivity.
Defined.

(** ** Argument validation *)

(** C2. With no NULL among the arguments: an empty token or pattern makes
    [split] and [regex_split] report "Invalid input to split function"
    whatever the input text and the index are, and an empty find string
    makes [regex_replace] report "Invalid substring to find in replace
    function"; with a non-empty one none of the three reports an error. *)
Theorem empty_pattern_is_invalid_argument {engine : RegexEngine}
  (keep_empty : bool) (context : sqlite3_context)
  (argv0 argv1 argv2 : sqlite3_value) :
  is_null argv0 = false -> is_null argv1 = false -> is_null argv2 = false ->
  let argv := [argv0; argv1; argv2] in
  (Str.empty (text_of argv1) = true ->
   tokenStringSplitFunc keep_empty context argv
   = Returned (ResultError "Invalid input to split function" (-1))
   /\ regexStringSplitFunc context argv
      = Returned (ResultError "Invalid input to split function" (-1))
   /\ regexStringReplaceFunc context argv
      = Returned
          (ResultError "Invalid substring to find in replace function" (-1)))
  /\
  (Str.empty (text_of argv1) = false ->
   forall after,
     tokenStringSplitFunc keep_empty context argv = Returned after
     \/ regexStringSplitFunc context argv = Returned after
     \/ regexStringReplaceFunc context argv = Returned after ->
     is_error after = false).
Proof.
  intros P0 P1 P2 argv. subst argv.
  unfold tokenStringSplitFunc, regexStringSplitFunc, regexStringReplaceFunc.
  rewrite !callStringSplitFunc_present, callStringReplaceFunc_present
    by assumption.
  split; intros Hempty; rewrite Hempty.
  - repeat split; reflexivity.
  - intros after [H | [H | H]].
    + unfold tokenSplit in H. cbn [bind] in H.
      destruct (_ <=? _) in H; injection H as <-; reflexivity.
    + destruct (regexSplit _ _) in H; cbn [bind] in H; try discriminate.
      destruct (_ <=? _) in H; injection H as <-; reflexivity.
    + destruct (regexReplace _ _ _) in H; cbn [bind] in H; try discriminate.
      injection H as <-. reflexivity.
Qed.

Lemma empty_pattern_is_invalid_argument_witness :
  regexStringSplitFunc (engine := PerlFragment.engine) ResultUnset
    [SqlText ""; SqlText ""; SqlInteger 0]
  = Returned (ResultError "Invalid input to split function" (-1))
  /\ is_error (ResultText "b" 1) = false.
Proof.
  split.
  - apply (proj1 (@empty_pattern_is_invalid_argument PerlFragment.engine true
                    ResultUnset (SqlText "") (SqlText "") (SqlInteger 0)
                    eq_refl eq_refl eq_refl)).
    reflexivity.
  - apply (proj2 (@empty_pattern_is_invalid_argument PerlFragment.engine true
                    ResultUnset (SqlText "a.b") (SqlText "\.") (SqlInteger 1)
                    eq_refl eq_refl eq_refl) eq_refl (ResultText "b" 1)).
    right. left. reflexivity.
Defined.

(** ** Selection by index *)

Section Selection.

Variables (context : sqlite3_context) (argv0 argv1 argv2 : sqlite3_value).
Variables (f : StringSplitFunction) (result : SplitResult).

Hypothesis present0 : is_null argv0 = false.
Hypothesis present1 : is_null argv1 = false.
Hypothesis present2 : is_null argv2 = false.
Hypothesis token_given : Str.empty (text_of argv1) = false.
Hypothesis split_done : f (text_of argv0) (text_of argv1) = Returned result.

Let index : Z := static_cast_size_t (sqlite3_value_int argv2).

Lemma selection_out_of_range :
  Z.of_nat (List.length result) <= index ->
  callStringSplitFunc context [argv0; argv1; argv2] f
  = Returned (sqlite3_result_null context).
Proof.
  intros H. rewrite callStringSplitFunc_present by assumption.
  rewrite token_given, split_done. cbn [bind]. fold index.
  apply Z.leb_le in H. rewrite H. reflexivity.
Qed.

Lemma selection_in_range :
  index < Z.of_nat (List.length result) ->
  exists selected,
    nth_error result (Z.to_nat index) = Some selected /\
    callStringSplitFunc context [argv0; argv1; argv2] f
    = Returned
        (sqlite3_result_text context selected
           (static_cast_int (Str.size selected))).
Proof.
  intros H. rewrite callStringSplitFunc_present by assumption.
  rewrite token_given, split_done. cbn [bind]. fold index.
  assert (0 <= index) as Hpos
    by (unfold index, static_cast_size_t; apply Z.mod_pos_bound; lia).
  apply Z.leb_gt in H as Hb. rewrite Hb.
  exists (nth (Z.to_nat index) result EmptyString). split; [| reflexivity].
  apply nth_error_nth'. lia.
Qed.

Lemma selection_negative_int :
  sqlite3_value_int argv2 < 0 ->
  Z.of_nat (List.length result) <= 2 ^ 63 ->
  2 ^ 63 <= index /\
  callStringSplitFunc context [argv0; argv1; argv2] f
  = Returned (sqlite3_result_null context).
Proof.
  intros Hneg Hsize.
  assert (2 ^ 63 <= index) as Hbig.
  { unfold index. pose proof (sqlite3_value_int_range argv2).
    rewrite static_cast_size_t_negative; lia. }
  split; [exact Hbig |]. apply selection_out_of_range. lia.
Qed.

End Selection.

Lemma index_of_integer (i : Z) :
  0 <= i < 2 ^ 31 ->
  static_cast_size_t (sqlite3_value_int (SqlInteger i)) = i.
Proof.
  intros H. cbn [sqlite3_value_int].
  rewrite static_cast_int_id, static_cast_size_t_nonneg; lia.
Qed.

(** C3, as the code has it. With no NULL among the arguments and a non-empty
    token or pattern, let [index] be what the driver compares: the [int]
    that [sqlite3_value_int] makes of the third argument, converted to
    [size_t]; for an INTEGER argument from 0 to 2^31 - 1 that is the
    argument itself. When the splitter ([tokenSplit] for [split],
    [regexSplit] for [regex_split]) returns [result]: if [index] is at least
    the number of substrings the NULL result is set, and no error;
    otherwise the substring at [index] is set as text. *)
Theorem split_selects_at_int_index {engine : RegexEngine}
  (keep_empty : bool) (context : sqlite3_context)
  (argv0 argv1 argv2 : sqlite3_value) :
  is_null argv0 = false -> is_null argv1 = false -> is_null argv2 = false ->
  Str.empty (text_of argv1) = false ->
  let argv := [argv0; argv1; argv2] in
  let index := static_cast_size_t (sqlite3_value_int argv2) in
  (forall i, argv2 = SqlInteger i -> 0 <= i < 2 ^ 31 -> index = i)
  /\
  (forall result,
     tokenSplit keep_empty (text_of argv0) (text_of argv1) = Returned result ->
     (Z.of_nat (List.length result) <= index ->
      tokenStringSplitFunc keep_empty context argv
      = Returned (sqlite3_result_null context))
     /\
     (index < Z.of_nat (List.length result) ->
      exists selected,
        nth_error result (Z.to_nat index) = Some selected /\
        tokenStringSplitFunc keep_empty context argv
        = Returned
            (sqlite3_result_text context selected
               (static_cast_int (Str.size selected)))))
  /\
  (forall result,
     regexSplit (text_of argv0) (text_of argv1) = Returned result ->
     (Z.of_nat (List.length result) <= index ->
      regexStringSplitFunc context argv
      = Returned (sqlite3_result_null context))
     /\
     (index < Z.of_nat (List.length result) ->
      exists selected,
        nth_error result (Z.to_nat index) = Some selected /\
        regexStringSplitFunc context argv
        = Returned
            (sqlite3_result_text context selected
               (static_cast_int (Str.size selected))))).
Proof.
  intros P0 P1 P2 Htoken argv index. subst argv index.
  split; [| split].
  - intros i -> Hi. apply index_of_integer. exact Hi.
  - intros result Hsplit. split; intros H.
    + eapply selection_out_of_range; eassumption.
    + eapply selection_in_range; eassumption.
  - intros result Hsplit. split; intros H.
    + eapply selection_out_of_range; eassumption.
    + eapply selection_in_range; eassumption.
Qed.

(** C10, as the code has it. With no NULL among the arguments and a
    non-empty token or pattern, an index argument that [sqlite3_value_int]
    reads as a negative [int] (every INTEGER from -2^31 to -1 is read as
    itself) becomes a [size_t] of at least 2^63, and the NULL result is set
    whenever the splitter returned at most 2^63 substrings. *)
Theorem negative_int_index_yields_null {engine : RegexEngine}
  (keep_empty : bool) (context : sqlite3_context)
  (argv0 argv1 argv2 : sqlite3_value) :
  is_null argv0 = false -> is_null argv1 = false -> is_null argv2 = false ->
  Str.empty (text_of argv1) = false ->
  sqlite3_value_int argv2 < 0 ->
  let argv := [argv0; argv1; argv2] in
  2 ^ 63 <= static_cast_size_t (sqlite3_value_int argv2)
  /\
  (forall result,
     tokenSplit keep_empty (text_of argv0) (text_of argv1) = Returned result ->
     Z.of_nat (List.length result) <= 2 ^ 63 ->
     tokenStringSplitFunc keep_empty context argv
     = Returned (sqlite3_result_null context))
  /\
  (forall result,
     regexSplit (text_of argv0) (text_of argv1) = Returned result ->
     Z.of_nat (List.length result) <= 2 ^ 63 ->
     regexStringSplitFunc context argv
     = Returned (sqlite3_result_null context)).
Proof.
  intros P0 P1 P2 Htoken Hneg argv. subst argv.
  split; [| split].
  - pose proof (sqlite3_value_int_range argv2).
    rewrite static_cast_size_t_negative; lia.
  - intros result Hsplit Hsize.
    eapply selection_negative_int; eassumption.
  - intros result Hsplit Hsize.
    eapply selection_negative_int; eassumption.
Qed.

(** Every INTEGER from -2^31 to -1 is read as itself, hence as negative. *)
Lemma negative_integer_read_as_itself (i : Z) :
  - 2 ^ 31 <= i < 0 -> sqlite3_value_int (SqlInteger i) = i.
Proof. intros H. cbn [sqlite3_value_int]. apply static_cast_int_id. lia. Qed.

(** ** Byte order *)


Lemma lor_shiftl_add (lo hi n : Z) :
  0 <= n -> 0 <= lo < 2 ^ n ->
  Z.lor lo (Z.shiftl hi n) = lo + hi * 2 ^ n.
Proof.
  intros Hn Hlo.
  pose proof (Z.add_lor_land lo (Z.shiftl hi n)) as Hsum.
  assert (Z.land lo (Z.shiftl hi n) = 0) as Hland;
    [| rewrite Hland in Hsum; rewrite Z.shiftl_mul_pow2 in * by assumption; lia].
  apply Z.bits_inj'. intros i Hi.
  rewrite Z.land_spec, Z.bits_0.
  destruct (Z.lt_ge_cases i n) as [Hlt | Hge].
  - rewrite Z.shiftl_spec_low by assumption. apply andb_false_r.
  - rewrite <- (Z.mod_small lo (2 ^ n)) by assumption.
    rewrite Z.mod_pow2_bits_high by lia. reflexivity.
Qed.

Lemma octet_of_word (x k : Z) :
  0 <= k -> Z.land (Z.shiftr x k) 255 = (x / 2 ^ k) mod 2 ^ 8.
Proof.
  intros Hk. rewrite Z.shiftr_div_pow2 by assumption.
  change 255 with (Z.ones 8). apply Z.land_ones. lia.
Qed.

Lemma load_uint32_little (a b c d : Z) :
  octet a -> octet b -> octet c -> octet d ->
  load_uint32 LittleEndian [a; b; c; d]
  = a + b * 2 ^ 8 + c * 2 ^ 16 + d * 2 ^ 24.
Proof.
  unfold octet, load_uint32. intros Ha Hb Hc Hd. cbn [nth].
  rewrite (lor_shiftl_add (Z.shiftl c 16) d) by (rewrite ?Z.shiftl_mul_pow2; lia).
  rewrite !Z.shiftl_mul_pow2 by lia.
  replace (c * 2 ^ 16 + d * 2 ^ 24) with ((c + d * 2 ^ 8) * 2 ^ 16) by lia.
  rewrite <- (Z.shiftl_mul_pow2 (c + d * 2 ^ 8) 16) by lia.
  rewrite (lor_shiftl_add (b * 2 ^ 8) (c + d * 2 ^ 8)) by lia.
  replace (b * 2 ^ 8 + (c + d * 2 ^ 8) * 2 ^ 16)
    with ((b + c * 2 ^ 8 + d * 2 ^ 16) * 2 ^ 8) by lia.
  rewrite <- (Z.shiftl_mul_pow2 (b + c * 2 ^ 8 + d * 2 ^ 16) 8) by lia.
  rewrite (lor_shiftl_add a) by lia. lia.
Qed.

Lemma load_uint32_big (a b c d : Z) :
  octet a -> octet b -> octet c -> octet d ->
  load_uint32 BigEndian [a; b; c; d]
  = a * 2 ^ 24 + b * 2 ^ 16 + c * 2 ^ 8 + d.
Proof.
  intros Ha Hb Hc Hd.
  change (load_uint32 BigEndian [a; b; c; d])
    with (load_uint32 LittleEndian [d; c; b; a]).
  rewrite load_uint32_little by assumption. lia.
Qed.

Lemma bswap32_octets (a b c d : Z) :
  octet a -> octet b -> octet c -> octet d ->
  bswap32 (a + b * 2 ^ 8 + c * 2 ^ 16 + d * 2 ^ 24)
  = a * 2 ^ 24 + b * 2 ^ 16 + c * 2 ^ 8 + d.
Proof.
  unfold octet. intros Ha Hb Hc Hd. unfold bswap32.
  set (x := a + b * 2 ^ 8 + c * 2 ^ 16 + d * 2 ^ 24).
  rewrite <- (Z.shiftr_0_r x) at 1.
  rewrite !octet_of_word by lia.
  assert ((x / 2 ^ 0) mod 2 ^ 8 = a) as ->
    by (subst x; Z.div_mod_to_equations; lia).
  assert ((x / 2 ^ 8) mod 2 ^ 8 = b) as ->
    by (subst x; Z.div_mod_to_equations; lia).
  assert ((x / 2 ^ 16) mod 2 ^ 8 = c) as ->
    by (subst x; Z.div_mod_to_equations; lia).
  assert ((x / 2 ^ 24) mod 2 ^ 8 = d) as ->
    by (subst x; Z.div_mod_to_equations; lia).
  transitivity (load_uint32 LittleEndian [d; c; b; a]).
  - unfold load_uint32. cbn [nth].
    apply Z.bits_inj'. intros i Hi. rewrite !Z.lor_spec.
    repeat destruct (Z.testbit _ i); reflexivity.
  - rewrite load_uint32_little by (unfold octet; lia). lia.
Qed.

(** Whatever the byte order of the machine, [ntohl] of the stored address
    is the big-endian reading of its four bytes. *)
Lemma ntohl_load_uint32 (host : byte_order) (a b c d : Z) :
  octet a -> octet b -> octet c -> octet d ->
  ntohl host (load_uint32 host [a; b; c; d])
  = a * 2 ^ 24 + b * 2 ^ 16 + c * 2 ^ 8 + d.
Proof.
  intros Ha Hb Hc Hd. destruct host; cbn [ntohl].
  - rewrite load_uint32_little by assumption. apply bswap32_octets; assumption.
  - apply load_uint32_big; assumption.
Qed.

(** ** The address parser *)

Lemma digit_value_range (ch : ascii) :
  Str.is_digit ch = true -> 0 <= Str.digit_value ch <= 9.
Proof.
  unfold Str.is_digit, Str.digit_value. intros H.
  apply andb_true_iff in H. destruct H as [H1 H2].
  apply Nat.leb_le in H1, H2. lia.
Qed.

Lemma digit_is_not_colon (ch : ascii) :
  Str.is_digit ch = true -> Ascii.eqb ch ":" = false.
Proof.
  intros H. destruct (Ascii.eqb ch ":") eqn:E; [| reflexivity].
  apply Ascii.eqb_eq in E. subst ch. discriminate.
Qed.

Lemma dot_is_not_colon (ch : ascii) :
  Ascii.eqb ch "." = true -> Ascii.eqb ch ":" = false.
Proof. intros H. apply Ascii.eqb_eq in H. subst ch. reflexivity. Qed.

Lemma digit_is_not_nul (ch : ascii) :
  Str.is_digit ch = true -> Ascii.eqb ch zero = false.
Proof.
  intros H. destruct (Ascii.eqb ch zero) eqn:E; [| reflexivity].
  apply Ascii.eqb_eq in E. subst ch. discriminate.
Qed.

Lemma dot_is_not_nul (ch : ascii) :
  Ascii.eqb ch "." = true -> Ascii.eqb ch zero = false.
Proof. intros H. apply Ascii.eqb_eq in H. subst ch. reflexivity. Qed.

(** What the loop stores, when it accepts: four octets; and it accepts
    digits and dots only. *)
Lemma inet_pton4_loop_accepts (src : string) :
  forall tmp cur (saw_digit : bool) octets mem,
    Forall octet tmp -> octet cur ->
    (List.length tmp <= 3)%nat ->
    (octets = List.length tmp + (if saw_digit then 1 else 0))%nat ->
    inet_pton4_loop src tmp cur saw_digit octets = Some mem ->
    List.length mem = 4%nat /\ Forall octet mem
    /\ Str.contains ":" src = false /\ Str.of_c_str src = src.
Proof.
  induction src as [| ch src IH]; intros tmp cur saw_digit octets mem
    Htmp Hcur Hlen Hoct; cbn [inet_pton4_loop Str.contains Str.of_c_str].
  - destruct (octets <? 4)%nat eqn:E; [discriminate |].
    apply Nat.ltb_ge in E. intros H. injection H as <-.
    repeat split.
    + rewrite length_app. cbn [List.length]. destruct saw_digit; lia.
    + apply Forall_app. split; [assumption | constructor; [assumption | constructor]].
  - destruct (Str.is_digit ch) eqn:Hdigit.
    + rewrite (digit_is_not_colon ch Hdigit), (digit_is_not_nul ch Hdigit).
      cbn [orb].
      pose proof (digit_value_range ch Hdigit) as Hv.
      assert (forall tmp' cur' saw' octets',
                 Forall octet tmp' -> octet cur' ->
                 (List.length tmp' <= 3)%nat ->
                 (octets' = List.length tmp' + (if saw' : bool then 1 else 0))%nat ->
                 inet_pton4_loop src tmp' cur' saw' octets' = Some mem ->
                 List.length mem = 4%nat /\ Forall octet mem
                 /\ Str.contains ":" src = false
                 /\ String ch (Str.of_c_str src) = String ch src) as IH'.
      { intros tmp' cur' saw' octets' H1 H2 H3 H4 H5.
        destruct (IH tmp' cur' saw' octets' mem H1 H2 H3 H4 H5)
          as (? & ? & ? & ->). repeat split; assumption. }
      destruct (saw_digit && (cur =? 0)); [discriminate |].
      destruct (255 <? cur * 10 + Str.digit_value ch) eqn:Hnew; [discriminate |].
      apply Z.ltb_ge in Hnew. unfold octet in Hcur.
      destruct saw_digit.
      * apply IH'; try assumption. unfold octet. lia.
      * destruct (4 <? S octets)%nat eqn:Hfour; [discriminate |].
        apply Nat.ltb_ge in Hfour.
        apply IH'; try assumption; [unfold octet | ]; lia.
    + destruct (Ascii.eqb ch "." && saw_digit) eqn:Hdot; [| discriminate].
      apply andb_true_iff in Hdot. destruct Hdot as [Hdot ->].
      rewrite (dot_is_not_colon ch Hdot), (dot_is_not_nul ch Hdot). cbn [orb].
      destruct (octets =? 4)%nat eqn:Hfour; [discriminate |].
      apply Nat.eqb_neq in Hfour. intros Hrun.
      destruct (IH (tmp ++ [cur]) 0 false octets mem) as (? & ? & ? & ->);
        [| | | | exact Hrun | repeat split; assumption].
      * apply Forall_app. split; [assumption | constructor; [assumption | constructor]].
      * unfold octet. lia.
      * rewrite length_app. cbn [List.length]. lia.
      * rewrite length_app. cbn [List.length]. lia.
Qed.

Lemma inet_pton_accepts (src : string) (mem : list Z) :
  inet_pton src = Some mem ->
  (exists a b c d,
      mem = [a; b; c; d] /\ octet a /\ octet b /\ octet c /\ octet d)
  /\ Str.contains ":" src = false /\ Str.of_c_str src = src.
Proof.
  unfold inet_pton. intros H.
  apply inet_pton4_loop_accepts in H;
    [| constructor | unfold octet; lia | cbn; lia | reflexivity].
  destruct H as (Hlen & Hall & Hcolon). split; [| exact Hcolon].
  destruct mem as [| a [| b [| c [| d [| ? ?]]]]]; try discriminate.
  exists a, b, c, d.
  split; [reflexivity |].
  repeat match goal with
    | H : Forall _ (_ :: _) |- _ => inversion H; subst; clear H
    end.
  repeat match goal with |- _ /\ _ => split end; assumption.
Qed.

(** The parser reads the decimal text of an octet as that octet. *)
Lemma inet_pton4_loop_octet (k : nat) :
  (k < 256)%nat ->
  forall (rest : string) (tmp : list Z) (octets : nat),
    (octets < 4)%nat ->
    inet_pton4_loop (decimal (Z.of_nat k) ++ rest) tmp 0 false octets
    = inet_pton4_loop rest tmp (Z.of_nat k) true (S octets).
Proof.
  intros Hk rest tmp octets Hoctets.
  destruct octets as [| [| [| [| octets]]]]; try lia;
    do 256 (destruct k as [| k]; [reflexivity |]); lia.
Qed.

Lemma inet_pton_dotted (a b c d : Z) :
  octet a -> octet b -> octet c -> octet d ->
  inet_pton (dotted a b c d) = Some [a; b; c; d].
Proof.
  unfold octet, inet_pton, dotted. intros Ha Hb Hc Hd.
  rewrite <- (Z2Nat.id a), <- (Z2Nat.id b), <- (Z2Nat.id c), <- (Z2Nat.id d)
    by lia.
  rewrite inet_pton4_loop_octet by lia. cbn -[decimal Z.of_nat].
  rewrite inet_pton4_loop_octet by lia. cbn -[decimal Z.of_nat].
  rewrite inet_pton4_loop_octet by lia. cbn -[decimal Z.of_nat].
  rewrite <- (append_empty_r (decimal (Z.of_nat (Z.to_nat d)))).
  rewrite inet_pton4_loop_octet by lia. reflexivity.
Qed.

(** ** [inet_aton] *)

(** C4. [inet_aton] of "192.168.0.1" is 3232235521. Whenever the text of
    the argument is accepted by the IPv4 parser, with octets [a], [b], [c],
    [d] stored in that order, the function sets the integer
    [a * 2^24 + b * 2^16 + c * 2^8 + d], an unsigned 32-bit value, on
    little-endian and big-endian machines alike; and the dotted-decimal
    text of any four octets is accepted with those octets. *)
Theorem inet_aton_is_big_endian_value (host : byte_order)
  (context : sqlite3_context) :
  ip4StringToDecimalFunc host context [SqlText "192.168.0.1"]
  = Returned (sqlite3_result_int64 context 3232235521)
  /\
  (forall (argv0 : sqlite3_value) (a b c d : Z),
      is_null argv0 = false ->
      inet_pton (text_of argv0) = Some [a; b; c; d] ->
      ip4StringToDecimalFunc host context [argv0]
      = Returned
          (sqlite3_result_int64 context
             (a * 2 ^ 24 + b * 2 ^ 16 + c * 2 ^ 8 + d))
      /\ 0 <= a * 2 ^ 24 + b * 2 ^ 16 + c * 2 ^ 8 + d < 2 ^ 32)
  /\
  (forall a b c d : Z,
      octet a -> octet b -> octet c -> octet d ->
      ip4StringToDecimalFunc host context [SqlText (dotted a b c d)]
      = Returned
          (sqlite3_result_int64 context
             (a * 2 ^ 24 + b * 2 ^ 16 + c * 2 ^ 8 + d))).
Proof.
  assert (forall (argv0 : sqlite3_value) (a b c d : Z),
             is_null argv0 = false ->
             inet_pton (text_of argv0) = Some [a; b; c; d] ->
             ip4StringToDecimalFunc host context [argv0]
             = Returned
                 (sqlite3_result_int64 context
                    (a * 2 ^ 24 + b * 2 ^ 16 + c * 2 ^ 8 + d))
             /\ 0 <= a * 2 ^ 24 + b * 2 ^ 16 + c * 2 ^ 8 + d < 2 ^ 32)
    as General.
  { intros argv0 a b c d Hpresent Hparse.
    destruct (inet_pton_accepts _ _ Hparse)
      as ((a' & b' & c' & d' & Heq & Ha & Hb & Hc & Hd) & Hcolon & _).
    injection Heq as <- <- <- <-.
    unfold ip4StringToDecimalFunc.
    rewrite Hpresent, (std_string_text_of argv0 Hpresent). cbn [bind].
    rewrite Hcolon, Hparse, ntohl_load_uint32 by assumption.
    split; [reflexivity | unfold octet in *; lia]. }
  split; [| split; [exact General |]].
  - apply (General (SqlText "192.168.0.1") 192 168 0 1); reflexivity.
  - intros a b c d Ha Hb Hc Hd.
    pose proof (inet_pton_dotted a b c d Ha Hb Hc Hd) as Hparse.
    apply General; [reflexivity |].
    unfold text_of. cbn [sqlite3_value_text].
    destruct (inet_pton_accepts _ _ Hparse) as (_ & _ & ->). exact Hparse.
Qed.

Lemma inet_aton_is_big_endian_value_witness :
  (ip4StringToDecimalFunc LittleEndian ResultUnset [SqlText "10.0.255.7"]
   = Returned (ResultInt64 (10 * 2 ^ 24 + 0 * 2 ^ 16 + 255 * 2 ^ 8 + 7))
   /\ 0 <= 10 * 2 ^ 24 + 0 * 2 ^ 16 + 255 * 2 ^ 8 + 7 < 2 ^ 32)
  /\ ip4StringToDecimalFunc BigEndian ResultUnset [SqlText (dotted 127 0 0 1)]
     = Returned (ResultInt64 (127 * 2 ^ 24 + 0 * 2 ^ 16 + 0 * 2 ^ 8 + 1)).
Proof.
  split.
  - apply (proj1 (proj2 (inet_aton_is_big_endian_value LittleEndian ResultUnset))
             (SqlText "10.0.255.7") 10 0 255 7).
    + reflexivity.
    + reflexivity.
  - apply (proj2 (proj2 (inet_aton_is_big_endian_value BigEndian ResultUnset))
             127 0 0 1);
      unfold octet; split; discriminate.
Defined.

(** C5. For a non-NULL argument whose text holds a colon, or whose text the
    IPv4 parser refuses, [inet_aton] sets the NULL result; "::1" and
    "not an ip" are such texts. No call of [inet_aton] sets an error. *)
Theorem inet_aton_rejects_with_null (host : byte_order)
  (context : sqlite3_context) :
  (forall argv0 : sqlite3_value,
      is_null argv0 = false ->
      Str.contains ":" (text_of argv0) = true
      \/ inet_pton (text_of argv0) = None ->
      ip4StringToDecimalFunc host context [argv0]
      = Returned (sqlite3_result_null context))
  /\ ip4StringToDecimalFunc host context [SqlText "::1"]
     = Returned (sqlite3_result_null context)
  /\ ip4StringToDecimalFunc host context [SqlText "not an ip"]
     = Returned (sqlite3_result_null context)
  /\ (forall argv after,
         ip4StringToDecimalFunc host context argv = Returned after ->
         is_error after = false).
Proof.
  assert (forall argv0 : sqlite3_value,
             is_null argv0 = false ->
             Str.contains ":" (text_of argv0) = true
             \/ inet_pton (text_of argv0) = None ->
             ip4StringToDecimalFunc host context [argv0]
             = Returned (sqlite3_result_null context)) as General.
  { intros argv0 Hpresent Hbad. unfold ip4StringToDecimalFunc.
    rewrite Hpresent, (std_string_text_of argv0 Hpresent). cbn [bind].
    destruct (Str.contains ":" (text_of argv0)) eqn:Hcolon; [reflexivity |].
    destruct Hbad as [Hbad | Hbad]; [discriminate |].
    rewrite Hbad. reflexivity. }
  split; [exact General |]. split; [| split].
  - apply General; [reflexivity | left; reflexivity].
  - apply General; [reflexivity | right; reflexivity].
  - intros argv after. unfold ip4StringToDecimalFunc.
    destruct argv as [| argv0 [| ? ?]]; try discriminate.
    destruct (is_null argv0) eqn:Hnull.
    + intros H. injection H as <-. reflexivity.
    + rewrite (std_string_text_of argv0 Hnull). cbn [bind].
      destruct (Str.contains ":" (text_of argv0)).
      * intros H. injection H as <-. reflexivity.
      * destruct (inet_pton (text_of argv0));
          intros H; injection H as <-; reflexivity.
Qed.

Lemma inet_aton_rejects_with_null_witness :
  ip4StringToDecimalFunc BigEndian ResultUnset [SqlText "1.2.3.256"]
  = Returned ResultNull.
Proof.
  apply (proj1 (inet_aton_rejects_with_null BigEndian ResultUnset)
           (SqlText "1.2.3.256")).
  - reflexivity.
  - right. reflexivity.
Defined.

(** ** Token split *)

Section TokenRuns.

Variable tokens : string.








End TokenRuns.



(** ** Regex split: the iterator against the decomposition at matches *)

Section RegexSplit.

Context {engine : RegexEngine} {laws : RegexLaws engine}.
Variable Rx : regex.

Variable input : string.
Let End : nat := String.length input.


Lemma increment_no_more (it : split_iterator) :
  cut_by_match input it ->
  no_match_before_end Rx (Str.from (m_Next it) input) ->
  increment Rx input it
  = {| m_Match := (m_Next it, End); m_Next := End; m_bEof := false |}.
Proof.
  intros (Heof & Hcut & Hnext) Hno. fold End in Hcut, Hnext.
  unfold no_match_before_end in Hno. unfold increment, do_find.
  fold End.
  destruct (regex_search Rx EmptyString (Str.from (m_Next it) input) false)
    as [what |] eqn:Hsearch.
  - apply regex_search_in_range in Hsearch.
    rewrite length_from in Hsearch, Hno. fold End in Hsearch, Hno.
    cbn [fst snd].
    replace (m_Next it + match_position what)%nat with End by lia.
    replace (End + match_length what)%nat with End by lia.
    rewrite Nat.eqb_refl. cbn [andb].
    apply Nat.lt_neq, Nat.eqb_neq in Hcut. rewrite Hcut, Heof. reflexivity.
  - cbn [fst snd]. rewrite Nat.eqb_refl. cbn [andb].
    apply Nat.lt_neq, Nat.eqb_neq in Hcut. rewrite Hcut, Heof. reflexivity.
Qed.

Lemma increment_at_end (n : nat) :
  m_bEof
    (increment Rx input
       {| m_Match := (n, End); m_Next := End; m_bEof := false |}) = true.
Proof.
  unfold increment, do_find. fold End. cbn [m_Next m_Match m_bEof snd].
  destruct (regex_search Rx EmptyString (Str.from End input) false)
    as [what |] eqn:Hsearch.
  - apply regex_search_in_range in Hsearch.
    rewrite length_from in Hsearch. fold End in Hsearch. cbn [fst snd].
    replace (End + match_position what)%nat with End by lia.
    replace (End + match_length what)%nat with End by lia.
    rewrite Nat.eqb_refl. reflexivity.
  - cbn [fst snd m_bEof]. rewrite Nat.eqb_refl. reflexivity.
Qed.

Lemma increment_match (it : split_iterator) (what : match_results) :
  cut_by_match input it ->
  regex_search Rx EmptyString (Str.from (m_Next it) input) false = Some what ->
  (match_position what < String.length (Str.from (m_Next it) input))%nat ->
  let it' :=
    {| m_Match := (m_Next it, (m_Next it + match_position what)%nat);
       m_Next := (m_Next it + match_position what + match_length what)%nat;
       m_bEof := false |} in
  increment Rx input it = it' /\ cut_by_match input it'.
Proof.
  intros (Heof & Hcut & Hnext) Hsearch Hpos it'. subst it'.
  fold End in Hcut, Hnext.
  pose proof (regex_search_in_range _ _ _ _ _ Hsearch) as Hrange.
  rewrite length_from in Hpos, Hrange. fold End in Hpos, Hrange.
  split.
  - unfold increment, do_find. fold End. rewrite Hsearch. cbn [fst snd].
    assert ((m_Next it + match_position what =? End)%nat = false) as ->
      by (apply Nat.eqb_neq; lia).
    cbn [andb]. rewrite Heof. reflexivity.
  - unfold cut_by_match. cbn [m_bEof m_Match m_Next snd].
    repeat split; lia.
Qed.

(** The last token and the end of the iteration. *)
Lemma collect_no_more (fuel : nat) (it : split_iterator) :
  cut_by_match input it ->
  no_match_before_end Rx (Str.from (m_Next it) input) ->
  collect (S (S fuel)) Rx input (increment Rx input it)
  = Some [Str.from (m_Next it) input].
Proof.
  intros Hit Hno. rewrite (increment_no_more it Hit Hno).
  cbn [collect m_bEof]. rewrite increment_at_end.
  unfold dereference. cbn [m_Match fst snd option_map].
  destruct fuel; reflexivity.
Qed.

Lemma collect_short (it : split_iterator) :
  m_bEof it = false -> collect 1 Rx input it = None.
Proof. intros H. cbn [collect]. rewrite H. reflexivity. Qed.

(** What the iteration delivers is a decomposition at matches. *)
Lemma collect_sound (fuel : nat) :
  forall it toks,
    cut_by_match input it ->
    collect fuel Rx input (increment Rx input it) = Some toks ->
    SplitAtMatches Rx (Str.from (m_Next it) input) toks.
Proof.
  induction fuel as [| fuel IH]; intros it toks Hit Hrun; [discriminate |].
  destruct (regex_search Rx EmptyString (Str.from (m_Next it) input) false)
    as [what |] eqn:Hsearch.
  - destruct (Nat.lt_ge_cases (match_position what)
                (String.length (Str.from (m_Next it) input))) as [Hlt | Hge].
    + destruct (increment_match it what Hit Hsearch Hlt) as [Hinc Hit'].
      rewrite Hinc in Hrun. cbn [collect m_bEof] in Hrun.
      match type of Hrun with
      | option_map _ ?c = _ => destruct c as [rest |] eqn:Hrest
      end; [| discriminate].
      injection Hrun as <-. unfold dereference. cbn [m_Match fst snd].
      rewrite range_in_from.
      eapply split_at; [exact Hsearch | exact Hlt |].
      rewrite from_from, Nat.add_assoc.
      apply (IH _ _ Hit') in Hrest. exact Hrest.
    + assert (no_match_before_end Rx (Str.from (m_Next it) input)) as Hno.
      { unfold no_match_before_end. rewrite Hsearch.
        apply regex_search_in_range in Hsearch. lia. }
      destruct fuel as [| fuel].
      * rewrite (increment_no_more it Hit Hno) in Hrun.
        rewrite collect_short in Hrun by reflexivity. discriminate.
      * rewrite (collect_no_more fuel it Hit Hno) in Hrun.
        injection Hrun as <-. apply split_whole. exact Hno.
  - assert (no_match_before_end Rx (Str.from (m_Next it) input)) as Hno
        by (unfold no_match_before_end; rewrite Hsearch; exact I).
    destruct fuel as [| fuel].
    + rewrite (increment_no_more it Hit Hno) in Hrun.
      rewrite collect_short in Hrun by reflexivity. discriminate.
    + rewrite (collect_no_more fuel it Hit Hno) in Hrun.
      injection Hrun as <-. apply split_whole. exact Hno.
Qed.

(** A decomposition never rests on an empty match that leaves the search
    where it started. *)
Lemma decomposition_advances (s : string) (toks : list string) :
  SplitAtMatches Rx s toks ->
  forall what,
    regex_search Rx EmptyString s false = Some what ->
    (match_position what < String.length s)%nat ->
    (0 < match_position what + match_length what)%nat.
Proof.
  induction 1 as [s Hno | s what rest Hsearch Hlt Hrest IH];
    intros what' Hsearch' Hlt'.
  - unfold no_match_before_end in Hno. rewrite Hsearch' in Hno. lia.
  - rewrite Hsearch in Hsearch'. injection Hsearch' as <-.
    destruct (Nat.eq_dec (match_position what + match_length what) 0)
      as [Hzero | Hpos]; [| lia].
    rewrite Hzero, from_0 in IH. apply (IH what Hsearch Hlt).
Qed.

(** Every decomposition at matches is delivered, given the fuel. *)
Lemma collect_complete (s : string) (toks : list string) :
  SplitAtMatches Rx s toks ->
  forall it fuel,
    s = Str.from (m_Next it) input ->
    cut_by_match input it ->
    (End - m_Next it + 2 <= fuel)%nat ->
    collect fuel Rx input (increment Rx input it) = Some toks.
Proof.
  intros Hsplit.
  pose proof (decomposition_advances s toks Hsplit) as Hadv. revert Hadv.
  induction Hsplit as [s Hno | s what rest Hsearch Hlt Hrest IH];
    intros Hadv it fuel -> Hit Hfuel.
  - destruct fuel as [| [| fuel]]; try lia.
    apply collect_no_more; assumption.
  - destruct fuel as [| fuel]; [lia |].
    specialize (Hadv what Hsearch Hlt).
    destruct (increment_match it what Hit Hsearch Hlt) as [Hinc Hit'].
    rewrite Hinc. cbn [collect m_bEof].
    unfold dereference at 1. cbn [m_Match fst snd].
    rewrite range_in_from.
    erewrite (IH (decomposition_advances _ _ Hrest)); [reflexivity | | exact Hit' |].
    + rewrite from_from, Nat.add_assoc. reflexivity.
    + pose proof Hlt as Hlt'. rewrite length_from in Hlt'. fold End in Hlt'.
      cbn [m_Next]. lia.
Qed.

(** [split_regex] returns exactly the decomposition of the input at the
    matches of the expression, when there is one. *)
Lemma split_regex_spec (toks : list string) :
  split_regex input Rx = Some toks <-> SplitAtMatches Rx input toks.
Proof.
  unfold split_regex, make_split_iterator. fold End.
  destruct (0 =? End)%nat eqn:Hempty.
  - apply Nat.eqb_eq in Hempty.
    assert (input = EmptyString) as Hinput
        by (apply length_0_empty; symmetry; exact Hempty).
    assert (collect (End + 2) Rx input
              {| m_Match := (0%nat, 0%nat); m_Next := 0; m_bEof := false |}
            = Some [input]) as Hrun.
    { rewrite <- Hempty. cbn [Nat.add collect m_bEof].
      pose proof (increment_at_end 0) as Hend. rewrite <- Hempty in Hend.
      rewrite Hend. rewrite Hinput. reflexivity. }
    rewrite Hrun. split.
    + intros H. injection H as <-. apply split_whole.
      unfold no_match_before_end.
      destruct (regex_search Rx EmptyString input false) as [what |] eqn:Hs;
        [| exact I].
      apply regex_search_in_range in Hs. fold End in Hs |- *. lia.
    + intros H. inversion H as [s Hno | s what rest Hsearch Hlt Hrest];
        subst; [reflexivity |].
      fold End in Hlt. lia.
  - apply Nat.eqb_neq in Hempty.
    set (it0 := {| m_Match := (0%nat, 0%nat); m_Next := 0; m_bEof := false |}).
    assert (cut_by_match input it0) as Hit0
        by (unfold cut_by_match; cbn; repeat split; lia).
    split.
    + intros H. apply (collect_sound _ it0 _ Hit0) in H.
      cbn [m_Next it0] in H. rewrite from_0 in H. exact H.
    + intros H. apply (collect_complete input toks H it0).
      * cbn [m_Next it0]. rewrite from_0. reflexivity.
      * exact Hit0.
      * cbn [m_Next it0]. lia.
Qed.

(** No amount of fuel delivers what [String.length input + 2] steps do
    not: when [split_regex] is [None] the iteration does not end. *)
Lemma collect_fuel_enough (fuel : nat) (toks : list string) :
  collect fuel Rx input (make_split_iterator Rx input) = Some toks ->
  split_regex input Rx = Some toks.
Proof.
  intros Hrun. unfold split_regex.
  unfold make_split_iterator in *. fold End in Hrun |- *.
  destruct (0 =? End)%nat eqn:Hempty.
  - apply Nat.eqb_eq in Hempty.
    pose proof (increment_at_end 0) as Hend. rewrite <- Hempty in Hend |- *.
    destruct fuel as [| [| fuel]]; try discriminate.
    cbn [Nat.add collect m_bEof] in Hrun |- *. rewrite Hend in Hrun |- *.
    destruct fuel; exact Hrun.
  - apply Nat.eqb_neq in Hempty.
    set (it0 := {| m_Match := (0%nat, 0%nat); m_Next := 0; m_bEof := false |}) in *.
    assert (cut_by_match input it0) as Hit0
        by (unfold cut_by_match; cbn; repeat split; lia).
    apply (collect_sound _ it0 _ Hit0) in Hrun.
    eapply collect_complete; [exact Hrun | reflexivity | exact Hit0 |].
    cbn [m_Next it0]. lia.
Qed.

End RegexSplit.

(** ** Regex replace: the loop against the substitution of every match *)

Section RegexReplace.

Context {engine : RegexEngine} {laws : RegexLaws engine}.
Variables (e : regex) (input fmt : string).
Let End : nat := String.length input.

Lemma ReplacedFrom_functional (start : nat) (flag : bool) (out1 : string) :
  ReplacedFrom e input fmt start flag out1 ->
  forall out2, ReplacedFrom e input fmt start flag out2 -> out1 = out2.
Proof.
  induction 1 as [start flag Hnone | start flag what out Hsome first last_m Hrest IH];
    intros out2 H2;
    inversion H2 as [? ? Hnone2 | ? ? what2 out' Hsome2 first2 last2 Hrest2];
    subst; try congruence.
  rewrite Hsome in Hsome2. injection Hsome2 as <-.
  subst first last_m first2 last2.
  rewrite (IH _ Hrest2). reflexivity.
Qed.

Lemma replace_matches_sound (fuel : nat) :
  forall start flag what out,
    regex_search e (Str.range 0 start input) (Str.from start input) flag
    = Some what ->
    replace_matches fuel e input fmt start what = Some out ->
    ReplacedFrom e input fmt start flag out.
Proof.
  induction fuel as [| fuel IH]; intros start flag what out Hsome Hrun;
    [discriminate |].
  cbn [replace_matches] in Hrun.
  set (first := (start + match_position what)%nat) in *.
  set (last_m := (first + match_length what)%nat) in *.
  destruct (regex_search e (Str.range 0 last_m input) (Str.from last_m input)
              (match_length what =? 0)%nat) as [next |] eqn:Hnext.
  - destruct (replace_matches fuel e input fmt last_m next) as [rest |] eqn:Hrest;
      [| discriminate].
    injection Hrun as <-.
    rewrite append_assoc.
    apply (replaced_match e input fmt start flag what rest Hsome).
    apply (IH _ _ _ _ Hnext Hrest).
  - injection Hrun as <-.
    rewrite append_assoc.
    apply (replaced_match e input fmt start flag what _ Hsome).
    apply replaced_rest. exact Hnext.
Qed.

(** The loop ends: after an empty match the next one is further on. *)
Lemma replace_matches_total (fuel : nat) :
  forall start before flag what,
    regex_search e before (Str.from start input) flag = Some what ->
    (start <= End)%nat ->
    (2 * (End - (start + match_position what + match_length what))
     + (if (match_length what =? 0)%nat then 0 else 1) < fuel)%nat ->
    exists out, replace_matches fuel e input fmt start what = Some out.
Proof.
  induction fuel as [| fuel IH]; intros start before flag what Hsome Hstart Hfuel;
    [lia |].
  cbn [replace_matches].
  pose proof (regex_search_in_range _ _ _ _ _ Hsome) as Hrange.
  rewrite length_from in Hrange. fold End in Hrange.
  set (last_m := (start + match_position what + match_length what)%nat) in *.
  destruct (regex_search e (Str.range 0 last_m input) (Str.from last_m input)
              (match_length what =? 0)%nat) as [next |] eqn:Hnext;
    [| eexists; reflexivity].
  destruct (IH last_m _ _ next Hnext) as [rest Hrest].
  - lia.
  - pose proof (regex_search_in_range _ _ _ _ _ Hnext) as Hrange'.
    rewrite length_from in Hrange'. fold End in Hrange'.
    destruct (match_length what =? 0)%nat eqn:Hlen.
    + apply regex_search_not_initial_null in Hnext.
      destruct (match_length next =? 0)%nat; lia.
    + destruct (match_length next =? 0)%nat eqn:Hlen';
        [apply Nat.eqb_eq in Hlen' | apply Nat.eqb_neq in Hlen']; lia.
  - rewrite Hrest. eexists. reflexivity.
Qed.

(** [regex_replace] always returns, and what it returns is the input with
    every match substituted. *)
Lemma regex_replace_spec :
  exists out,
    regex_replace input e fmt = Some out /\ ReplacedFrom e input fmt 0 false out.
Proof.
  unfold regex_replace.
  destruct (regex_search e EmptyString input false) as [what |] eqn:Hsearch.
  - rewrite <- (from_0 input) in Hsearch at 1.
    destruct (replace_matches_total (2 * String.length input + 2) 0
                EmptyString false what Hsearch) as [out Hout].
    + lia.
    + fold End. destruct (match_length what =? 0)%nat; lia.
    + exists out. split; [exact Hout |].
      apply (replace_matches_sound (2 * String.length input + 2) 0 false
               what out); [| exact Hout].
      rewrite range_0_0. exact Hsearch.
  - exists input. split; [reflexivity |].
    pose proof (replaced_rest e input fmt 0 false) as Hrest.
    rewrite from_0, range_0_0 in Hrest. apply Hrest. exact Hsearch.
Qed.

(** Nothing matches: the input comes back as it is. *)
Lemma regex_replace_without_match :
  regex_search e EmptyString input false = None ->
  regex_replace input e fmt = Some input.
Proof. intros H. unfold regex_replace. rewrite H. reflexivity. Qed.

End RegexReplace.

(** ** The regular-expression functions *)

Lemma regexSplit_returns {engine : RegexEngine} {laws : RegexLaws engine}
  (input token : string)
  (rx : regex) (toks : list string) :
  regex_compile token = Some rx ->
  regexSplit input token = Returned toks <-> SplitAtMatches rx input toks.
Proof.
  intros Hrx. unfold regexSplit. rewrite Hrx.
  rewrite <- split_regex_spec.
  destruct (split_regex input rx) as [result |]; split; intros H;
    try discriminate; injection H as <-; reflexivity.
Qed.

Lemma regexReplace_returns {engine : RegexEngine} {laws : RegexLaws engine}
  (input pattern fmt : string)
  (rx : regex) :
  regex_compile pattern = Some rx ->
  exists out,
    regexReplace input pattern fmt = Returned out
    /\ ReplacedFrom rx input fmt 0 false out.
Proof.
  intros Hrx. unfold regexReplace. rewrite Hrx.
  destruct (regex_replace_spec rx input fmt) as (out & Hout & Hspec).
  rewrite Hout. exists out. split; [reflexivity | exact Hspec].
Qed.

(** C6. [regex_replace] is a global replacement: for a pattern that
    compiles, the call returns the input in which every successive match,
    not the first one only, is replaced by the formatted template; when
    the non-empty pattern matches nothing in the input, the input comes
    back unchanged, also through the SQL function. The engine of the Perl
    fragment turns "/Users/bob/ws/proj" into "./ws/proj" and replaces both
    dots of "a.b.c". *)
Theorem regex_replace_substitutes_every_match {engine : RegexEngine}
  {laws : RegexLaws engine}
  (context : sqlite3_context) :
  (forall x p r rx,
      regex_compile p = Some rx ->
      exists out,
        regexReplace x p r = Returned out /\ ReplacedFrom rx x r 0 false out)
  /\
  (forall x p r rx,
      Str.empty p = false ->
      regex_compile p = Some rx ->
      regex_search rx EmptyString x false = None ->
      regexReplace x p r = Returned x)
  /\
  (forall argv0 argv1 argv2 rx,
      is_null argv0 = false -> is_null argv1 = false -> is_null argv2 = false ->
      Str.empty (text_of argv1) = false ->
      regex_compile (text_of argv1) = Some rx ->
      regex_search rx EmptyString (text_of argv0) false = None ->
      regexStringReplaceFunc context [argv0; argv1; argv2]
      = Returned
          (sqlite3_result_text context (text_of argv0)
             (static_cast_int (Str.size (text_of argv0)))))
  /\ regexStringReplaceFunc (engine := PerlFragment.engine) context
       [SqlText "/Users/bob/ws/proj"; SqlText "/Users/[^/]+/"; SqlText "./"]
     = Returned (sqlite3_result_text context "./ws/proj" 9)
  /\ regexStringReplaceFunc (engine := PerlFragment.engine) context
       [SqlText "a.b.c"; SqlText "\."; SqlText "-"]
     = Returned (sqlite3_result_text context "a-b-c" 5).
Proof.
  assert (forall x p r rx,
             regex_compile p = Some rx ->
             regex_search rx EmptyString x false = None ->
             regexReplace x p r = Returned x) as Identity.
  { intros x p r rx Hrx Hnone. unfold regexReplace.
    rewrite Hrx, regex_replace_without_match by exact Hnone. reflexivity. }
  split; [| split; [| split; [| split]]].
  - intros x p r rx Hrx. apply regexReplace_returns. exact Hrx.
  - intros x p r rx _ Hrx Hnone. apply (Identity x p r rx Hrx Hnone).
  - intros argv0 argv1 argv2 rx P0 P1 P2 Hpattern Hrx Hnone.
    unfold regexStringReplaceFunc.
    rewrite callStringReplaceFunc_present by assumption.
    rewrite Hpattern, (Identity _ _ _ rx Hrx Hnone). reflexivity.
  - reflexivity.
  - reflexivity.
Qed.

Lemma regex_replace_substitutes_every_match_witness :
  regexStringReplaceFunc (engine := PerlFragment.engine) ResultUnset
    [SqlText "192.168.0.1"; SqlText "x+"; SqlText "y"]
  = Returned (ResultText "192.168.0.1" 11)
  /\ exists out,
      regexReplace (engine := PerlFragment.engine) "a.b.c" "\." "$&$&"
      = Returned out.
Proof.
  split.
  - apply (proj1 (proj2 (proj2
             (@regex_replace_substitutes_every_match PerlFragment.engine
                PerlFragmentLaws.lawful ResultUnset)))
             (SqlText "192.168.0.1") (SqlText "x+") (SqlText "y")
             (PerlFragment.Cat
                (PerlFragment.Cat (PerlFragment.Chars false [("x", "x")]%char)
                   (PerlFragment.Star (PerlFragment.Chars false [("x", "x")]%char)))
                PerlFragment.Empty));
      reflexivity.
  - destruct (proj1 (@regex_replace_substitutes_every_match PerlFragment.engine
                       PerlFragmentLaws.lawful ResultUnset)
                "a.b.c" "\." "$&$&"
                (PerlFragment.Cat (PerlFragment.Chars false [(".", ".")]%char)
                   PerlFragment.Empty) eq_refl) as (out & Hout & _).
    exists out. exact Hout.
Defined.






(** C9, as the code has it. With no NULL among the arguments and a
    non-empty pattern that the regular-expression compiler refuses,
    [regex_split] and [regex_replace] do not return: the [regex_error]
    thrown by the compiler leaves the function uncaught, and the function
    sets no result in the context, neither a value nor NULL nor an error
    message. *)
Theorem malformed_pattern_throws {engine : RegexEngine}
  (context : sqlite3_context) (argv0 argv1 argv2 : sqlite3_value) :
  is_null argv0 = false -> is_null argv1 = false -> is_null argv2 = false ->
  Str.empty (text_of argv1) = false ->
  regex_compile (text_of argv1) = None ->
  regexStringSplitFunc context [argv0; argv1; argv2] = Threw regex_error
  /\ regexStringReplaceFunc context [argv0; argv1; argv2] = Threw regex_error.
Proof.
  intros P0 P1 P2 Hpattern Hrx.
  unfold regexStringSplitFunc, regexStringReplaceFunc.
  rewrite callStringSplitFunc_present, callStringReplaceFunc_present
    by assumption.
  rewrite Hpattern. unfold regexSplit, regexReplace. rewrite Hrx.
  split; reflexivity.
Qed.

Lemma malformed_pattern_throws_witness :
  regexStringSplitFunc (engine := PerlFragment.engine) ResultUnset
    [SqlText "a(b"; SqlText "[a-"; SqlInteger 0] = Threw regex_error
  /\ regexStringReplaceFunc (engine := PerlFragment.engine) ResultUnset
       [SqlText "a(b"; SqlText "[a-"; SqlInteger 0] = Threw regex_error.
Proof.
  apply (@malformed_pattern_throws PerlFragment.engine ResultUnset
           (SqlText "a(b") (SqlText "[a-") (SqlInteger 0));
    reflexivity.
Defined.

(** An unmatched parenthesis: the compiler refuses the pattern, and the call
    ends in the exception, not in a context holding an error message. *)
Lemma malformed_pattern_sets_no_error :
  is_null (SqlText "(") = false
  /\ Str.empty (text_of (SqlText "(")) = false
  /\ regex_compile (RegexEngine := PerlFragment.engine) "(" = None
  /\ regexStringSplitFunc (engine := PerlFragment.engine) ResultUnset
       [SqlText "a(b"; SqlText "("; SqlInteger 0] = Threw regex_error
  /\ regexStringReplaceFunc (engine := PerlFragment.engine) ResultUnset
       [SqlText "a(b"; SqlText "("; SqlText "-"] = Threw regex_error
  /\ (forall msg n,
         regexStringSplitFunc (engine := PerlFragment.engine) ResultUnset
           [SqlText "a(b"; SqlText "("; SqlInteger 0]
         <> Returned (ResultError msg n))
  /\ (forall msg n,
         regexStringReplaceFunc (engine := PerlFragment.engine) ResultUnset
           [SqlText "a(b"; SqlText "("; SqlText "-"]
         <> Returned (ResultError msg n)).
Proof.
  repeat split; try reflexivity; intros msg n H; discriminate H.
Qed.

(** ** Indices outside the range of [int] *)

(** 2^32 is not below the number of substrings, three, and yet the first
    substring is selected: [sqlite3_value_int] keeps the low 32 bits. *)
Lemma index_beyond_int_range_selects_a_substring :
  tokenSplit true "a.b.c" "." = Returned ["a"; "b"; "c"]
  /\ regexSplit (engine := PerlFragment.engine) "a.b.c" "\."
     = Returned ["a"; "b"; "c"]
  /\ Z.of_nat (List.length ["a"; "b"; "c"]) <= 4294967296
  /\ tokenStringSplitFunc true ResultUnset
       [SqlText "a.b.c"; SqlText "."; SqlInteger 4294967296]
     = Returned (ResultText "a" 1)
  /\ tokenStringSplitFunc false ResultUnset
       [SqlText "a.b.c"; SqlText "."; SqlInteger 4294967296]
     = Returned (ResultText "a" 1)
  /\ regexStringSplitFunc (engine := PerlFragment.engine) ResultUnset
       [SqlText "a.b.c"; SqlText "\."; SqlInteger 4294967296]
     = Returned (ResultText "a" 1).
Proof. repeat split; try reflexivity. discriminate. Qed.

(** -2^32 is negative, and the first substring is selected. *)
Lemma negative_index_beyond_int_range_selects_a_substring :
  -4294967296 < 0
  /\ tokenStringSplitFunc true ResultUnset
       [SqlText "a.b.c"; SqlText "."; SqlInteger (-4294967296)]
     = Returned (ResultText "a" 1)
  /\ tokenStringSplitFunc false ResultUnset
       [SqlText "a.b.c"; SqlText "."; SqlInteger (-4294967296)]
     = Returned (ResultText "a" 1)
  /\ regexStringSplitFunc (engine := PerlFragment.engine) ResultUnset
       [SqlText "a.b.c"; SqlText "\."; SqlInteger (-4294967296)]
     = Returned (ResultText "a" 1).
Proof. repeat split; reflexivity. Qed.

Lemma split_selects_at_int_index_witness :
  tokenStringSplitFunc true ResultUnset
    [SqlText "a,b"; SqlText ","; SqlInteger 7]
  = Returned ResultNull
  /\ exists selected,
      nth_error ["192"; "168"; "0"; "1"] (Z.to_nat 2) = Some selected
      /\ regexStringSplitFunc (engine := PerlFragment.engine) ResultUnset
           [SqlText "192.168.0.1"; SqlText "\."; SqlInteger 2]
         = Returned (ResultText selected (static_cast_int (Str.size selected))).
Proof.
  split.
  - destruct (@split_selects_at_int_index PerlFragment.engine true ResultUnset
                (SqlText "a,b") (SqlText ",") (SqlInteger 7)
                eq_refl eq_refl eq_refl eq_refl) as (_ & Htoken & _).
    destruct (Htoken ["a"; "b"] eq_refl) as [Hout _].
    apply Hout. vm_compute. discriminate.
  - destruct (@split_selects_at_int_index PerlFragment.engine true ResultUnset
                (SqlText "192.168.0.1") (SqlText "\.") (SqlInteger 2)
                eq_refl eq_refl eq_refl eq_refl) as (_ & _ & Hregex).
    destruct (Hregex ["192"; "168"; "0"; "1"] eq_refl) as [_ Hin].
    apply Hin. vm_compute. reflexivity.
Defined.

Lemma negative_int_index_yields_null_witness :
  2 ^ 63 <= static_cast_size_t (sqlite3_value_int (SqlInteger (-1)))
  /\ tokenStringSplitFunc false ResultUnset
       [SqlText "a.b.c"; SqlText "."; SqlInteger (-1)]
     = Returned ResultNull
  /\ regexStringSplitFunc (engine := PerlFragment.engine) ResultUnset
       [SqlText "a.b.c"; SqlText "\."; SqlInteger (-1)]
     = Returned ResultNull.
Proof.
  destruct (@negative_int_index_yields_null PerlFragment.engine false
              ResultUnset (SqlText "a.b.c") (SqlText ".") (SqlInteger (-1))
              eq_refl eq_refl eq_refl eq_refl eq_refl) as (Hbig & Htoken & _).
  destruct (@negative_int_index_yields_null PerlFragment.engine false
              ResultUnset (SqlText "a.b.c") (SqlText "\.") (SqlInteger (-1))
              eq_refl eq_refl eq_refl eq_refl eq_refl) as (_ & _ & Hregex).
  split; [exact Hbig | split].
  - apply (Htoken ["a"; "b"; "c"] eq_refl). vm_compute. discriminate.
  - apply (Hregex ["a"; "b"; "c"] eq_refl). vm_compute. discriminate.
Defined.

(* ------------------------------------------------------------------------- *)
(** * Further properties of the functions *)

(** ** [inet_aton]: what a call comes to *)

Lemma colon_refused (src : string) :
  Str.contains ":" src = true -> inet_pton src = None.
Proof.
  intros Hcolon. destruct (inet_pton src) as [mem |] eqn:Hparse; [| reflexivity].
  destruct (inet_pton_accepts _ _ Hparse) as (_ & Hno & _). congruence.
Qed.

(** The call in terms of the parser alone. *)
Lemma ip4StringToDecimalFunc_present (host : byte_order)
  (context : sqlite3_context) (argv0 : sqlite3_value) :
  is_null argv0 = false ->
  ip4StringToDecimalFunc host context [argv0]
  = match inet_pton (text_of argv0) with
    | Some mem => Returned (sqlite3_result_int64 context (big_endian mem))
    | None => Returned (sqlite3_result_null context)
    end.
Proof.
  intros Hpresent. unfold ip4StringToDecimalFunc.
  rewrite Hpresent, (std_string_text_of argv0 Hpresent). cbn [bind].
  destruct (Str.contains ":" (text_of argv0)) eqn:Hcolon.
  - rewrite (colon_refused _ Hcolon). reflexivity.
  - destruct (inet_pton (text_of argv0)) as [mem |] eqn:Hparse; [| reflexivity].
    destruct (inet_pton_accepts _ _ Hparse)
      as ((a & b & c & d & -> & Ha & Hb & Hc & Hd) & _).
    rewrite ntohl_load_uint32 by assumption. reflexivity.
Qed.

Lemma octets_of_big_endian (a b c d : Z) :
  octet a -> octet b -> octet c -> octet d ->
  octets_of (big_endian [a; b; c; d]) = [a; b; c; d].
Proof.
  unfold octet, octets_of, big_endian. intros Ha Hb Hc Hd.
  repeat f_equal; Z.div_mod_to_equations; lia.
Qed.

Lemma big_endian_octets_of (v : Z) :
  0 <= v < 2 ^ 32 ->
  big_endian (octets_of v) = v /\ Forall octet (octets_of v).
Proof.
  intros Hv. unfold big_endian, octets_of, octet. split.
  - Z.div_mod_to_equations. lia.
  - repeat constructor; Z.div_mod_to_equations; lia.
Qed.

(** X1. The byte order of the machine does not show in the result. *)
Theorem inet_aton_host_independent (host host' : byte_order)
  (context : sqlite3_context) (argv : list sqlite3_value) :
  ip4StringToDecimalFunc host context argv
  = ip4StringToDecimalFunc host' context argv.
Proof.
  destruct argv as [| argv0 [| ? ?]]; try reflexivity.
  destruct (is_null argv0) eqn:Hnull.
  - unfold ip4StringToDecimalFunc. rewrite Hnull. reflexivity.
  - rewrite !ip4StringToDecimalFunc_present by exact Hnull. reflexivity.
Qed.

(** X2. An integer set by [inet_aton] is an unsigned 32-bit value, and the
    address bytes the parser stored are its four octets: the integer loses
    nothing of the address. *)
Theorem inet_aton_integer_decodes (host : byte_order)
  (context : sqlite3_context) (argv0 : sqlite3_value) (v : Z) :
  ip4StringToDecimalFunc host context [argv0] = Returned (ResultInt64 v) ->
  0 <= v < 2 ^ 32 /\ inet_pton (text_of argv0) = Some (octets_of v).
Proof.
  destruct (is_null argv0) eqn:Hnull.
  - unfold ip4StringToDecimalFunc. rewrite Hnull. discriminate.
  - rewrite ip4StringToDecimalFunc_present by exact Hnull.
    destruct (inet_pton (text_of argv0)) as [mem |] eqn:Hparse; [| discriminate].
    destruct (inet_pton_accepts _ _ Hparse)
      as ((a & b & c & d & -> & Ha & Hb & Hc & Hd) & _).
    intros H.
    assert (v = big_endian [a; b; c; d]) as ->
        by (unfold sqlite3_result_int64 in H; congruence).
    rewrite octets_of_big_endian by assumption.
    split; [unfold big_endian, octet in *; lia | reflexivity].
Qed.

Lemma inet_aton_integer_decodes_witness :
  0 <= 3232235521 < 2 ^ 32
  /\ inet_pton (text_of (SqlText "192.168.0.1")) = Some (octets_of 3232235521).
Proof.
  apply (inet_aton_integer_decodes LittleEndian ResultUnset
           (SqlText "192.168.0.1") 3232235521).
  reflexivity.
Defined.

(** X3. Every unsigned 32-bit value is the [inet_aton] of the dotted text
    of its octets. *)
Theorem inet_aton_of_dotted_octets (host : byte_order)
  (context : sqlite3_context) (v : Z) :
  0 <= v < 2 ^ 32 ->
  ip4StringToDecimalFunc host context
    [SqlText
       (dotted (v / 2 ^ 24) ((v / 2 ^ 16) mod 2 ^ 8) ((v / 2 ^ 8) mod 2 ^ 8)
          (v mod 2 ^ 8))]
  = Returned (sqlite3_result_int64 context v).
Proof.
  intros Hv. destruct (big_endian_octets_of v Hv) as [Hvalue Hoctets].
  unfold octets_of in Hoctets.
  repeat match goal with
    | H : Forall _ (_ :: _) |- _ => inversion H; subst; clear H
    end.
  match goal with
  | |- context [dotted ?a ?b ?c ?d] =>
      pose proof (inet_pton_dotted a b c d) as Hparse
  end.
  specialize (Hparse ltac:(assumption) ltac:(assumption) ltac:(assumption)
                ltac:(assumption)).
  rewrite ip4StringToDecimalFunc_present by reflexivity.
  unfold text_of. cbn [sqlite3_value_text].
  destruct (inet_pton_accepts _ _ Hparse) as (_ & _ & ->).
  rewrite Hparse. fold (octets_of v). rewrite Hvalue. reflexivity.
Qed.

Lemma inet_aton_of_dotted_octets_witness :
  ip4StringToDecimalFunc BigEndian ResultUnset
    [SqlText
       (dotted (4294967295 / 2 ^ 24) ((4294967295 / 2 ^ 16) mod 2 ^ 8)
          ((4294967295 / 2 ^ 8) mod 2 ^ 8) (4294967295 mod 2 ^ 8))]
  = Returned (ResultInt64 4294967295).
Proof.
  apply (inet_aton_of_dotted_octets BigEndian ResultUnset 4294967295).
  split; [discriminate | reflexivity].
Defined.

(** X4. The integers sort as the addresses do: one result is below another
    exactly when its address bytes come first in lexicographic order. *)
Theorem inet_aton_orders_addresses (host : byte_order)
  (context : sqlite3_context) (argv0 argv0' : sqlite3_value) (v v' : Z)
  (mem mem' : list Z) :
  ip4StringToDecimalFunc host context [argv0] = Returned (ResultInt64 v) ->
  ip4StringToDecimalFunc host context [argv0'] = Returned (ResultInt64 v') ->
  inet_pton (text_of argv0) = Some mem ->
  inet_pton (text_of argv0') = Some mem' ->
  (v < v' <-> lex_lt mem mem').
Proof.
  intros Hv Hv' Hmem Hmem'.
  destruct (is_null argv0) eqn:Hnull;
    [unfold ip4StringToDecimalFunc in Hv; rewrite Hnull in Hv; discriminate |].
  destruct (is_null argv0') eqn:Hnull';
    [unfold ip4StringToDecimalFunc in Hv'; rewrite Hnull' in Hv'; discriminate |].
  rewrite ip4StringToDecimalFunc_present, Hmem in Hv by exact Hnull.
  rewrite ip4StringToDecimalFunc_present, Hmem' in Hv' by exact Hnull'.
  assert (v = big_endian mem) as ->
      by (unfold sqlite3_result_int64 in Hv; congruence).
  assert (v' = big_endian mem') as ->
      by (unfold sqlite3_result_int64 in Hv'; congruence).
  destruct (inet_pton_accepts _ _ Hmem)
    as ((a & b & c & d & -> & Ha & Hb & Hc & Hd) & _).
  destruct (inet_pton_accepts _ _ Hmem')
    as ((a' & b' & c' & d' & -> & Ha' & Hb' & Hc' & Hd') & _).
  unfold big_endian, octet in *. cbn [lex_lt]. lia.
Qed.

Lemma inet_aton_orders_addresses_witness :
  167772415 < 167837696 <-> lex_lt [10; 0; 0; 255] [10; 1; 0; 0].
Proof.
  apply (inet_aton_orders_addresses LittleEndian ResultUnset
           (SqlText "10.0.0.255") (SqlText "10.1.0.0")
           167772415 167837696 [10; 0; 0; 255] [10; 1; 0; 0]);
    reflexivity.
Defined.

(** ** [regex_split]: the tokens and the input *)

Lemma take_drop (n : nat) (s : string) : (take n s ++ drop n s)%string = s.
Proof.
  revert n. induction s as [| c s IH]; intros [| n]; cbn [take drop append];
    try reflexivity.
  rewrite IH. reflexivity.
Qed.

(** A text is the part before a match, the match and the part after it. *)
Lemma cut_at_match (p l : nat) (s : string) :
  (Str.range 0 p s ++ Str.range p (p + l) s ++ Str.from (p + l) s)%string = s.
Proof.
  rewrite !range_take_drop, from_drop, <- drop_drop. cbn [drop].
  replace (p - 0)%nat with p by lia. replace (p + l - p)%nat with l by lia.
  rewrite take_drop. apply take_drop.
Qed.

Section RegexSplitTokens.

Context {engine : RegexEngine} {laws : RegexLaws engine}.
Variable Rx : regex.

Lemma SplitAtMatches_first (s : string) (toks : list string) :
  SplitAtMatches Rx s toks ->
  exists first rest tail,
    toks = first :: rest /\ s = (first ++ tail)%string.
Proof.
  intros [s' Hno | s' what rest Hsearch Hlt Hrest].
  - exists s', [], EmptyString. split; [reflexivity |].
    symmetry. apply append_empty_r.
  - exists (Str.range 0 (match_position what) s'), rest,
      (drop (match_position what) s').
    split; [reflexivity |].
    rewrite range_take_drop. cbn [drop].
    replace (match_position what - 0)%nat with (match_position what) by lia.
    symmetry. apply take_drop.
Qed.

Lemma SplitAtMatches_join (s : string) (toks : list string) :
  SplitAtMatches Rx s toks ->
  exists seps,
    List.length toks = S (List.length seps) /\ join_tokens toks seps = s.
Proof.
  induction 1 as [s Hno | s what rest Hsearch Hlt Hrest IH].
  - exists []. split; reflexivity.
  - destruct IH as (seps & Hlen & Hjoin).
    exists (Str.range (match_position what)
              (match_position what + match_length what) s :: seps).
    split; [cbn [List.length]; lia |].
    cbn [join_tokens]. rewrite Hjoin. apply cut_at_match.
Qed.

Lemma SplitAtMatches_count (s : string) (toks : list string) :
  SplitAtMatches Rx s toks ->
  (List.length toks <= String.length s + 1)%nat.
Proof.
  intros Hsplit.
  pose proof (decomposition_advances Rx s s toks Hsplit) as Hadv. revert Hadv.
  induction Hsplit as [s Hno | s what rest Hsearch Hlt Hrest IH]; intros Hadv.
  - cbn [List.length]. lia.
  - specialize (Hadv what Hsearch Hlt).
    specialize (IH (decomposition_advances Rx s _ _ Hrest)).
    rewrite length_from in IH. cbn [List.length]. lia.
Qed.

End RegexSplitTokens.

(** X5. When [regex_split] returns, its tokens are consecutive pieces of
    the input: joined around the texts between them they give the input
    back, and there are at most one more of them than the input has
    bytes. *)
Theorem regex_split_tokens_rebuild_input {engine : RegexEngine}
  {laws : RegexLaws engine} (input token : string) (result : SplitResult) :
  regexSplit input token = Returned result ->
  (exists seps,
      List.length result = S (List.length seps)
      /\ join_tokens result seps = input)
  /\ (List.length result <= String.length input + 1)%nat.
Proof.
  intros Hsplit.
  destruct (regex_compile token) as [rx |] eqn:Hrx;
    [| unfold regexSplit in Hsplit; rewrite Hrx in Hsplit; discriminate].
  apply (regexSplit_returns input token rx result Hrx) in Hsplit.
  split.
  - apply (SplitAtMatches_join rx). exact Hsplit.
  - apply (SplitAtMatches_count rx). exact Hsplit.
Qed.

Lemma regex_split_tokens_rebuild_input_witness :
  (exists seps,
      List.length ["192.168"; ".1"] = S (List.length seps)
      /\ join_tokens ["192.168"; ".1"] seps = "192.168.0.1")
  /\ (List.length ["192.168"; ".1"] <= String.length "192.168.0.1" + 1)%nat.
Proof.
  apply (@regex_split_tokens_rebuild_input PerlFragment.engine
           PerlFragmentLaws.lawful "192.168.0.1" "\.0" ["192.168"; ".1"]).
  reflexivity.
Defined.

(** X6. When [regex_split] returns, index 0 never gives NULL: the result
    has a first token, it is a prefix of the input (the text before the
    first match), and it is what index 0 selects. *)
Theorem regex_split_index_0_is_prefix {engine : RegexEngine}
  {laws : RegexLaws engine} (context : sqlite3_context)
  (argv0 argv1 argv2 : sqlite3_value) (result : SplitResult) :
  is_null argv0 = false -> is_null argv1 = false -> is_null argv2 = false ->
  Str.empty (text_of argv1) = false ->
  regexSplit (text_of argv0) (text_of argv1) = Returned result ->
  sqlite3_value_int argv2 = 0 ->
  exists first rest tail,
    result = first :: rest
    /\ text_of argv0 = (first ++ tail)%string
    /\ regexStringSplitFunc context [argv0; argv1; argv2]
       = Returned
           (sqlite3_result_text context first
              (static_cast_int (Str.size first))).
Proof.
  intros P0 P1 P2 Hpattern Hsplit Hindex.
  destruct (regex_compile (text_of argv1)) as [rx |] eqn:Hrx;
    [| unfold regexSplit in Hsplit; rewrite Hrx in Hsplit; discriminate].
  pose proof Hsplit as Hspec.
  apply (regexSplit_returns _ _ rx result Hrx) in Hspec.
  destruct (SplitAtMatches_first rx _ _ Hspec)
    as (first & rest & tail & -> & Hprefix).
  exists first, rest, tail. split; [reflexivity | split; [exact Hprefix |]].
  unfold regexStringSplitFunc.
  rewrite callStringSplitFunc_present by assumption.
  rewrite Hpattern, Hsplit, Hindex. reflexivity.
Qed.

Lemma regex_split_index_0_is_prefix_witness :
  exists first rest tail,
    ["a"; "b"; ""] = first :: rest
    /\ text_of (SqlText "a-b-") = (first ++ tail)%string
    /\ regexStringSplitFunc (engine := PerlFragment.engine) ResultUnset
         [SqlText "a-b-"; SqlText "-"; SqlInteger 0]
       = Returned (ResultText first (static_cast_int (Str.size first))).
Proof.
  apply (@regex_split_index_0_is_prefix PerlFragment.engine
           PerlFragmentLaws.lawful ResultUnset (SqlText "a-b-") (SqlText "-")
           (SqlInteger 0) ["a"; "b"; ""]);
    reflexivity.
Defined.

(** X7. A pattern that compiles and matches nothing in the input: the
    result of [regex_split] is the input alone, so index 0 selects the
    whole input. *)
Theorem regex_split_without_match {engine : RegexEngine}
  {laws : RegexLaws engine} (context : sqlite3_context)
  (argv0 argv1 argv2 : sqlite3_value) (rx : regex) :
  is_null argv0 = false -> is_null argv1 = false -> is_null argv2 = false ->
  Str.empty (text_of argv1) = false ->
  regex_compile (text_of argv1) = Some rx ->
  regex_search rx EmptyString (text_of argv0) false = None ->
  regexSplit (text_of argv0) (text_of argv1) = Returned [text_of argv0]
  /\ (sqlite3_value_int argv2 = 0 ->
      regexStringSplitFunc context [argv0; argv1; argv2]
      = Returned
          (sqlite3_result_text context (text_of argv0)
             (static_cast_int (Str.size (text_of argv0)))))
  /\ (0 < sqlite3_value_int argv2 ->
      regexStringSplitFunc context [argv0; argv1; argv2]
      = Returned (sqlite3_result_null context)).
Proof.
  intros P0 P1 P2 Hpattern Hrx Hnone.
  assert (regexSplit (text_of argv0) (text_of argv1) = Returned [text_of argv0])
    as Hsplit.
  { apply (regexSplit_returns _ _ rx _ Hrx). apply split_whole.
    unfold no_match_before_end. rewrite Hnone. exact I. }
  split; [exact Hsplit |].
  unfold regexStringSplitFunc.
  rewrite callStringSplitFunc_present by assumption.
  rewrite Hpattern, Hsplit. cbn [bind List.length].
  split; intros Hindex.
  - rewrite Hindex. reflexivity.
  - pose proof (sqlite3_value_int_range argv2) as Hrange.
    rewrite static_cast_size_t_nonneg by lia.
    assert ((Z.of_nat 1 <=? sqlite3_value_int argv2) = true) as ->
        by (apply Z.leb_le; lia).
    reflexivity.
Qed.

Lemma regex_split_without_match_witness :
  regexSplit (engine := PerlFragment.engine) (text_of (SqlText "abc"))
    (text_of (SqlText "[0-9]+"))
  = Returned [text_of (SqlText "abc")]
  /\ regexStringSplitFunc (engine := PerlFragment.engine) ResultUnset
       [SqlText "abc"; SqlText "[0-9]+"; SqlInteger 3]
     = Returned ResultNull.
Proof.
  destruct (@regex_split_without_match PerlFragment.engine
              PerlFragmentLaws.lawful ResultUnset (SqlText "abc")
              (SqlText "[0-9]+") (SqlInteger 3)
              (PerlFragment.Cat
                 (PerlFragment.Cat
                    (PerlFragment.Chars false [("0", "9")]%char)
                    (PerlFragment.Star
                       (PerlFragment.Chars false [("0", "9")]%char)))
                 PerlFragment.Empty)
              eq_refl eq_refl eq_refl eq_refl eq_refl eq_refl)
    as (Hsplit & _ & Hnull).
  split; [exact Hsplit | apply Hnull; reflexivity].
Defined.

(** X8. A pattern whose first match in a non-empty input is the empty match
    at its very start: the split iterator does not move, and [regex_split]
    returns no result however long it runs. *)
Theorem regex_split_initial_empty_match_diverges {engine : RegexEngine}
  {laws : RegexLaws engine} (input token : string) (rx : regex)
  (what : match_results) :
  regex_compile token = Some rx ->
  regex_search rx EmptyString input false = Some what ->
  match_position what = 0%nat -> match_length what = 0%nat ->
  input <> EmptyString ->
  regexSplit input token = Diverged
  /\ forall fuel, collect fuel rx input (make_split_iterator rx input) = None.
Proof.
  intros Hrx Hsearch Hpos Hlen Hinput.
  assert (forall toks, ~ SplitAtMatches rx input toks) as Hnever.
  { intros toks Hsplit.
    pose proof (decomposition_advances rx input input toks Hsplit what Hsearch) as H.
    destruct input; [contradiction |]. cbn [String.length] in H. lia. }
  split.
  - unfold regexSplit. rewrite Hrx.
    destruct (split_regex input rx) as [toks |] eqn:Hrun; [| reflexivity].
    apply split_regex_spec in Hrun. destruct (Hnever toks Hrun).
  - intros fuel.
    destruct (collect fuel rx input (make_split_iterator rx input))
      as [toks |] eqn:Hrun; [| reflexivity].
    apply collect_fuel_enough, split_regex_spec in Hrun.
    destruct (Hnever toks Hrun).
Qed.

Lemma regex_split_initial_empty_match_diverges_witness :
  regexSplit (engine := PerlFragment.engine) "abc" "x*" = Diverged
  /\ forall fuel,
      collect (engine := PerlFragment.engine) fuel
        (PerlFragment.Cat
           (PerlFragment.Star (PerlFragment.Chars false [("x", "x")]%char))
           PerlFragment.Empty) "abc"
        (make_split_iterator (engine := PerlFragment.engine)
           (PerlFragment.Cat
              (PerlFragment.Star (PerlFragment.Chars false [("x", "x")]%char))
              PerlFragment.Empty) "abc") = None.
Proof.
  apply (@regex_split_initial_empty_match_diverges PerlFragment.engine
           PerlFragmentLaws.lawful "abc" "x*" _
           {| match_position := 0; match_length := 0; match_captures := [] |});
    try reflexivity.
  discriminate.
Defined.

(** ** [regex_replace]: what comes back *)

Section RegexReplaceIdentity.

Context {engine : RegexEngine}.
Variables (e : regex) (input fmt : string).

(** The template formats every match as the matched text itself. *)
Hypothesis keeps_match :
  forall what first,
    match_format what input first fmt
    = Str.range first (first + match_length what) input.

Lemma ReplacedFrom_keeps_input (start : nat) (flag : bool) (out : string) :
  ReplacedFrom e input fmt start flag out -> out = Str.from start input.
Proof.
  induction 1 as [start flag Hnone | start flag what out Hsome first last_m Hrest IH];
    [reflexivity |].
  subst first last_m. rewrite IH, keeps_match.
  rewrite !range_take_drop, !from_drop, <- !drop_drop.
  replace (start + match_position what - start)%nat
    with (match_position what) by lia.
  replace (start + match_position what + match_length what
           - (start + match_position what))%nat
    with (match_length what) by lia.
  rewrite take_drop. apply take_drop.
Qed.

End RegexReplaceIdentity.

(** X9. A template that formats each match as the matched text (the
    whole-match reference of the format syntax) makes [regex_replace] the
    identity, however many matches there are. *)
Theorem regex_replace_with_match_itself {engine : RegexEngine}
  {laws : RegexLaws engine} (x p r : string) (rx : regex) :
  regex_compile p = Some rx ->
  (forall what first,
      match_format what x first r
      = Str.range first (first + match_length what) x) ->
  regexReplace x p r = Returned x.
Proof.
  intros Hrx Hkeeps.
  destruct (regexReplace_returns x p r rx Hrx) as (out & Hout & Hspec).
  rewrite Hout.
  rewrite (ReplacedFrom_keeps_input rx x r Hkeeps 0 false out Hspec).
  rewrite from_0. reflexivity.
Qed.

Lemma regex_replace_with_match_itself_witness :
  regexReplace (engine := PerlFragment.engine) "192.168.0.1" "[0-9]+" "$&"
  = Returned "192.168.0.1".
Proof.
  apply (@regex_replace_with_match_itself PerlFragment.engine
           PerlFragmentLaws.lawful "192.168.0.1" "[0-9]+" "$&"
           (PerlFragment.Cat
              (PerlFragment.Cat
                 (PerlFragment.Chars false [("0", "9")]%char)
                 (PerlFragment.Star
                    (PerlFragment.Chars false [("0", "9")]%char)))
              PerlFragment.Empty)).
  - reflexivity.
  - intros what first. cbn [match_format PerlFragment.engine PerlFragment.format].
    apply append_empty_r.
Defined.

(** X10. With no NULL among its arguments [regex_replace] never sets NULL:
    a context it returns holds the invalid-substring error, exactly when
    the find string is empty, or a text with its byte count; and for a
    non-empty pattern that compiles it does return a text. *)
Theorem regex_replace_returns_text {engine : RegexEngine}
  {laws : RegexLaws engine} (context : sqlite3_context)
  (argv0 argv1 argv2 : sqlite3_value) :
  is_null argv0 = false -> is_null argv1 = false -> is_null argv2 = false ->
  (forall after,
      regexStringReplaceFunc context [argv0; argv1; argv2] = Returned after ->
      (Str.empty (text_of argv1) = true
       /\ after
          = ResultError "Invalid substring to find in replace function" (-1))
      \/ (Str.empty (text_of argv1) = false
          /\ exists z, after = ResultText z (static_cast_int (Str.size z))))
  /\
  (forall rx,
      Str.empty (text_of argv1) = false ->
      regex_compile (text_of argv1) = Some rx ->
      exists z,
        regexStringReplaceFunc context [argv0; argv1; argv2]
        = Returned (ResultText z (static_cast_int (Str.size z)))).
Proof.
  intros P0 P1 P2. unfold regexStringReplaceFunc.
  rewrite callStringReplaceFunc_present by assumption.
  split.
  - intros after. destruct (Str.empty (text_of argv1)).
    + intros H. injection H as <-. left. split; reflexivity.
    + destruct (regexReplace _ _ _) as [z | | |]; cbn [bind];
        try discriminate.
      intros H. injection H as <-. right. split; [reflexivity |].
      exists z. reflexivity.
  - intros rx Hpattern Hrx. rewrite Hpattern.
    destruct (regexReplace_returns (text_of argv0) (text_of argv1)
                (text_of argv2) rx Hrx) as (z & Hz & _).
    rewrite Hz. exists z. reflexivity.
Qed.

Lemma regex_replace_returns_text_witness :
  exists z,
    regexStringReplaceFunc (engine := PerlFragment.engine) ResultUnset
      [SqlText "abc"; SqlText "b*"; SqlText ""]
    = Returned (ResultText z (static_cast_int (Str.size z))).
Proof.
  apply (proj2 (@regex_replace_returns_text PerlFragment.engine
                  PerlFragmentLaws.lawful ResultUnset (SqlText "abc")
                  (SqlText "b*") (SqlText "") eq_refl eq_refl eq_refl)
           (PerlFragment.Cat
              (PerlFragment.Star (PerlFragment.Chars false [("b", "b")]%char))
              PerlFragment.Empty));
    reflexivity.
Defined.

(** ** The drivers and their arguments *)

(** X11. A text set by the split driver is one of the substrings its
    splitter returned for the texts of the first two arguments, passed
    with its byte count; this holds for [split] and for [regex_split]. *)
Theorem split_text_is_a_substring_returned (context : sqlite3_context)
  (argv : list sqlite3_value) (f : StringSplitFunction) (z : string) (n : Z) :
  callStringSplitFunc context argv f = Returned (ResultText z n) ->
  exists argv0 argv1 argv2 result,
    argv = [argv0; argv1; argv2]
    /\ f (text_of argv0) (text_of argv1) = Returned result
    /\ In z result
    /\ n = static_cast_int (Str.size z).
Proof.
  destruct argv as [| argv0 [| argv1 [| argv2 [| ? ?]]]]; try discriminate.
  destruct (is_null argv0) eqn:P0;
    [unfold callStringSplitFunc; rewrite P0; discriminate |].
  destruct (is_null argv1) eqn:P1;
    [unfold callStringSplitFunc; rewrite P0, P1; discriminate |].
  destruct (is_null argv2) eqn:P2;
    [unfold callStringSplitFunc; rewrite P0, P1, P2; discriminate |].
  rewrite callStringSplitFunc_present by assumption.
  destruct (Str.empty (text_of argv1)); [discriminate |].
  destruct (f (text_of argv0) (text_of argv1)) as [result | | |] eqn:Hf;
    cbn [bind]; try discriminate.
  destruct (Z.of_nat (List.length result)
            <=? static_cast_size_t (sqlite3_value_int argv2)) eqn:Hle;
    [discriminate |].
  intros H. unfold sqlite3_result_text in H. injection H as <- <-.
  exists argv0, argv1, argv2, result.
  split; [reflexivity | split; [exact Hf | split; [| reflexivity]]].
  apply nth_In. apply Z.leb_gt in Hle.
  assert (0 <= static_cast_size_t (sqlite3_value_int argv2))
    by (unfold static_cast_size_t; apply Z.mod_pos_bound; lia).
  lia.
Qed.

Lemma split_text_is_a_substring_returned_witness :
  exists argv0 argv1 argv2 result,
    [SqlText "k=v"; SqlText "="; SqlInteger 1] = [argv0; argv1; argv2]
    /\ regexSplit (engine := PerlFragment.engine) (text_of argv0)
         (text_of argv1) = Returned result
    /\ In "v" result
    /\ 1 = static_cast_int (Str.size "v").
Proof.
  apply (split_text_is_a_substring_returned ResultUnset
           [SqlText "k=v"; SqlText "="; SqlInteger 1]
           (regexSplit (engine := PerlFragment.engine)) "v" 1).
  reflexivity.
Defined.

(** X12. The index counts modulo 2^32: two INTEGER indices that differ by a
    multiple of 2^32 select the same. *)
Theorem split_index_is_read_modulo_2_32 (context : sqlite3_context)
  (argv0 argv1 : sqlite3_value) (f : StringSplitFunction) (i k : Z) :
  callStringSplitFunc context [argv0; argv1; SqlInteger (i + k * 2 ^ 32)] f
  = callStringSplitFunc context [argv0; argv1; SqlInteger i] f.
Proof.
  assert (sqlite3_value_int (SqlInteger (i + k * 2 ^ 32))
          = sqlite3_value_int (SqlInteger i)) as Hint.
  { cbn [sqlite3_value_int]. unfold static_cast_int.
    replace (i + k * 2 ^ 32 + 2 ^ 31) with (i + 2 ^ 31 + k * 2 ^ 32) by lia.
    rewrite Z.mod_add by lia. reflexivity. }
  unfold callStringSplitFunc. rewrite Hint. reflexivity.
Qed.

Lemma of_c_str_idempotent (p : string) :
  Str.of_c_str (Str.of_c_str p) = Str.of_c_str p.
Proof.
  induction p as [| c p IH]; cbn [Str.of_c_str]; [reflexivity |].
  destruct (Ascii.eqb c zero) eqn:E; [reflexivity |].
  cbn [Str.of_c_str]. rewrite E, IH. reflexivity.
Qed.

(** X13. A TEXT argument counts up to its first NUL byte: the split driver
    gives the same outcome on the arguments cut there, and a token that
    begins with a NUL byte is refused as an empty one. *)
Theorem split_reads_text_up_to_nul (context : sqlite3_context)
  (input token : string) (argv2 : sqlite3_value) (f : StringSplitFunction) :
  callStringSplitFunc context [SqlText input; SqlText token; argv2] f
  = callStringSplitFunc context
      [SqlText (Str.of_c_str input); SqlText (Str.of_c_str token); argv2] f
  /\ (is_null argv2 = false ->
      forall rest,
        callStringSplitFunc context
          [SqlText input; SqlText (String zero rest); argv2] f
        = Returned
            (sqlite3_result_error context "Invalid input to split function"
               (-1))).
Proof.
  split.
  - unfold callStringSplitFunc.
    cbn [is_null sqlite3_value_type datatype_eqb sqlite3_value_text std_string
           orb bind].
    rewrite !of_c_str_idempotent. reflexivity.
  - intros P2 rest. rewrite callStringSplitFunc_present by first [reflexivity | exact P2].
    reflexivity.
Qed.

Lemma split_reads_text_up_to_nul_witness :
  callStringSplitFunc ResultUnset
    [SqlText "a.b"; SqlText (String zero "."); SqlInteger 0] (tokenSplit true)
  = Returned (ResultError "Invalid input to split function" (-1)).
Proof.
  apply (proj2 (split_reads_text_up_to_nul ResultUnset "a.b" "" (SqlInteger 0)
                  (tokenSplit true)) eq_refl ".").
Defined.
